(** * Transcript acquisition service: caches, retry policy, track selector, route

    A shallow embedding of [main.py].  Python values are modelled as follows.

    - [str] is [string] (a byte string, UTF-8); [str.lower] is the ASCII
      lowering of the bytes, which agrees with Python on every keyword the
      program searches for.
    - [float] (clock readings, segment times) is [Q]: exact rational
      arithmetic, no rounding, no NaN or infinity.
    - [int] is [Z].
    - a [dict] is a [gmap]; a [list] is a [list].
    - code that may raise returns an [outcome]; code that talks to the outside
      (the caption library, the clock, the environment, the STT tooling)
      threads an abstract world and reaches it through a record of
      operations.
    - calls to the logger are left out: they read values and change nothing
      the program looks at.

    The definitions come first, in the order of the source; the properties
    follow, each with a run on simulated collaborators. *)

From Stdlib Require Import ZArith QArith Qround Lqa Lia.
From stdpp Require Import base option list strings gmap pretty.

Local Open Scope string_scope.

(* ===================================================================== *)
(** ** Strings *)
(* ===================================================================== *)

Module Str.

Definition lower_ascii (c : Ascii.ascii) : Ascii.ascii :=
  let n := Ascii.nat_of_ascii c in
  if (65 <=? n)%nat && (n <=? 90)%nat then Ascii.ascii_of_nat (n + 32) else c.

(** [s.lower()] *)
Fixpoint lower (s : string) : string :=
  match s with
  | EmptyString => EmptyString
  | String c r => String (lower_ascii c) (lower r)
  end.

(** [needle in hay] *)
Fixpoint contains (needle hay : string) : bool :=
  String.prefix needle hay ||
  match hay with
  | EmptyString => false
  | String _ r => contains needle r
  end.

(** ASCII white space, as [str.strip] removes it. *)
Definition is_space (c : Ascii.ascii) : bool :=
  let n := Ascii.nat_of_ascii c in
  ((9 <=? n)%nat && (n <=? 13)%nat) || ((28 <=? n)%nat && (n <=? 32)%nat).

Fixpoint lstrip (s : string) : string :=
  match s with
  | EmptyString => EmptyString
  | String c r => if is_space c then lstrip r else s
  end.

Fixpoint rstrip (s : string) : string :=
  match s with
  | EmptyString => EmptyString
  | String c r =>
      match rstrip r with
      | EmptyString => if is_space c then EmptyString else String c EmptyString
      | r' => String c r'
      end
  end.

(** [s.strip()] *)
Definition strip (s : string) : string := rstrip (lstrip s).

(** [s or default] on strings: the empty string is falsy. *)
Definition or_else (s default : string) : string :=
  match s with EmptyString => default | _ => s end.

End Str.

(* ===================================================================== *)
(** ** Exceptions and the state-and-exception monad *)
(* ===================================================================== *)

Inductive exn_class :=
| ValueError | KeyError | TranscriptsDisabled | NoTranscriptFound | OtherException
(** [HTTPException(status_code, detail, headers)]; [detail] is the message *)
| HTTPException (status_code : Z) (headers : list (string * string)).

(** An exception: its class and [str(e)]. *)
Record exn := Exn { exn_cls : exn_class; exn_msg : string }.

Inductive outcome (A : Type) :=
| Returned (a : A)
| Raised (e : exn).
Arguments Returned {A} a.
Arguments Raised {A} e.

(** A computation over the world [W]. *)
Definition M (W A : Type) : Type := W -> outcome A * W.

Definition ret {W A} (a : A) : M W A := fun w => (Returned a, w).
Definition raise {W A} (e : exn) : M W A := fun w => (Raised e, w).

Definition bind {W A B} (m : M W A) (k : A -> M W B) : M W B :=
  fun w => match m w with
           | (Returned a, w1) => k a w1
           | (Raised e, w1) => (Raised e, w1)
           end.

(** [try: m  except Exception as e: h e] *)
Definition try_except {W A} (m : M W A) (h : exn -> M W A) : M W A :=
  fun w => match m w with
           | (Returned a, w1) => (Returned a, w1)
           | (Raised e, w1) => h e w1
           end.

(** [try: m  finally: c], for a cleanup [c] that does not raise. *)
Definition try_finally {W A} (m : M W A) (c : W -> W) : M W A :=
  fun w => let (r, w1) := m w in (r, c w1).

Declare Scope m_scope.
Delimit Scope m_scope with m.
Notation "'do' x <- m ; k" := (bind m (fun x => k))
  (at level 10, x name, m at level 100, k at level 200) : m_scope.

(* ===================================================================== *)
(** ** RetryExecutor: [fetch_with_retry] *)
(* ===================================================================== *)

Definition is_rate_limit (msg : string) : bool :=
  Str.contains "429" msg || Str.contains "too many requests" msg.

Definition is_empty_xml (msg : string) : bool :=
  Str.contains "no element found" msg || Str.contains "empty transcript" msg
  || Str.contains "empty" msg.

(** The retry condition of the [except] clause, on the exception caught. *)
Definition transient (e : exn) : bool :=
  let msg := Str.lower (exn_msg e) in
  is_rate_limit msg || is_empty_xml msg.

(** [not data] on a list. *)
Definition falsy {A} (data : list A) : bool :=
  match data with [] => true | _ => false end.

Section Retry.
Context {W A : Type}.
(** [random.uniform(a, b)] and [time.sleep(d)]. *)
Variable random_uniform : Q -> Q -> W -> Q * W.
Variable time_sleep : Q -> W -> W.

(** The body of the [try]: call, and raise [ValueError] on empty data. *)
Definition attempt (fetch_call : M W (list A)) : M W (list A) :=
  (do data <- fetch_call;
   if falsy data then raise (Exn ValueError "empty transcript data")
   else ret data)%m.

(** [delay = base_delay * (2 ** i) + random.uniform(0.0, 0.6); time.sleep(delay)] *)
Definition backoff (base_delay : Q) (i : Z) (w : W) : W :=
  let (j, w1) := random_uniform 0 (3 # 5) w in
  time_sleep (base_delay * 2 ^ i + j)%Q w1.

(** The [for i in range(attempts)] loop, [n] iterations left, at index [i]. *)
Fixpoint retry_from (fetch_call : M W (list A)) (attempts : Z) (base_delay : Q)
    (n : nat) (i : Z) : M W (option (list A)) :=
  match n with
  | O => ret None
  | S n' => fun w =>
      match attempt fetch_call w with
      | (Returned data, w1) => (Returned (Some data), w1)
      | (Raised e, w1) =>
          if (i <? attempts - 1)%Z && transient e
          then retry_from fetch_call attempts base_delay n' (i + 1)
                 (backoff base_delay i w1)
          else (Raised e, w1)
      end
  end.

Definition fetch_with_retry (fetch_call : M W (list A))
    (attempts : Z) (base_delay : Q) : M W (option (list A)) :=
  retry_from fetch_call attempts base_delay (Z.to_nat attempts) 0.

(** [k] attempts in a row, the first at index [i], each failing with a
    transient error and followed by its back-off sleep. *)
Inductive fails_transiently (fetch_call : M W (list A)) (base_delay : Q)
  : nat -> Z -> W -> W -> Prop :=
| ft_done i w : fails_transiently fetch_call base_delay 0 i w w
| ft_step k i w e w1 w' :
    attempt fetch_call w = (Raised e, w1) ->
    transient e = true ->
    fails_transiently fetch_call base_delay k (i + 1) (backoff base_delay i w1) w' ->
    fails_transiently fetch_call base_delay (S k) i w w'.

End Retry.

Definition default_attempts : Z := 5.
Definition default_base_delay : Q := 6 # 5.

(** Instrumentation: the same operation on a world that also counts the
    calls made to it. *)
Definition counting {W A} (op : M W A) : M (W * nat) A :=
  fun '(w, n) => let (r, w1) := op w in (r, (w1, S n)).

Definition on_fst_uniform {W C} (u : Q -> Q -> W -> Q * W)
    (a b : Q) : W * C -> Q * (W * C) :=
  fun '(w, c) => let (x, w1) := u a b w in (x, (w1, c)).

Definition on_fst_sleep {W C} (s : Q -> W -> W) (d : Q) : W * C -> W * C :=
  fun '(w, c) => (s d w, c).

(* ===================================================================== *)
(** ** Python values and transcript segments *)
(* ===================================================================== *)

(** A Python value as far as the program looks at it: either a [float], or
    any other object (an [int], a [str], [None], ...), given by its [repr]
    and by what [float()] makes of it ([None] when [float()] raises). *)
Inductive pyval :=
| PyFloat (x : Q)
| PyObj (repr : string) (as_float : option Q).

(** [float(v)] *)
Definition py_float (v : pyval) : option Q :=
  match v with
  | PyFloat x => Some x
  | PyObj _ c => c
  end.

Definition py_str (s : string) : pyval := PyObj s None.
Definition py_none : pyval := PyObj "None" None.

(** A segment is a [dict] with string keys. *)
Abbreviation segment := (gmap string pyval).

(** [seg.get(k, d)] *)
Definition dict_get (seg : segment) (k : string) (d : pyval) : pyval :=
  default d (seg !! k).

Definition _safe_float (val : pyval) (dflt : Q) : Q :=
  default dflt (py_float val).

(* ===================================================================== *)
(** ** DurationNormalizer: [_normalize_durations] *)
(* ===================================================================== *)

(** Nearest integer, ties to even. *)
Definition round_half_even (q : Q) : Z :=
  let f := Qfloor q in
  match (q - inject_Z f ?= 1 # 2)%Q with
  | Lt => f
  | Gt => (f + 1)%Z
  | Eq => if Z.even f then f else (f + 1)%Z
  end.

(** [round(q, 3)] *)
Definition round3 (q : Q) : Q :=
  Qred (inject_Z (round_half_even (q * 1000)) / 1000).

(** [max(0.0, q)]: the second argument wins only when strictly greater. *)
Definition max0 (q : Q) : Q := if Qle_bool q 0 then 0%Q else q.

(** [needs_fill]: [float(dur) <= 0], and [True] when [float] raises. *)
Definition needs_fill (dur : pyval) : bool :=
  match py_float dur with
  | Some d => Qle_bool d 0
  | None => true
  end.

(** The value of [filled] for the segment at index [i] with start [start]. *)
Definition filled (segments : list segment) (n i : nat) (start : Q) : Q :=
  if (i <? n - 1)%nat then
    match segments !! (i + 1)%nat with
    | Some nxt =>
        let next_start := _safe_float (dict_get nxt "start" (PyFloat start)) start in
        max0 (round3 (next_start - start))
    | None => 0%Q (* IndexError: not reached, [i + 1 < n] *)
    end
  else if (2 <=? n)%nat then
    match segments !! (i - 1)%nat with
    | Some prv =>
        let prev_start := _safe_float (dict_get prv "start" (PyFloat start)) start in
        max0 (round3 (start - prev_start))
    | None => 0%Q (* IndexError: not reached, [1 <= i < n] *)
    end
  else 0%Q.

(** One iteration of the loop: the new segment for index [i]. *)
Definition normalize_at (segments : list segment) (n i : nat) (seg : segment)
  : segment :=
  let start := _safe_float (dict_get seg "start" (PyFloat 0)) 0 in
  let dur := dict_get seg "duration" (PyFloat 0) in
  let dur' := if needs_fill dur then PyFloat (filled segments n i start) else dur in
  <["duration" := dur']> (<["start" := PyFloat start]> seg).

Definition _normalize_durations (segments : list segment) : list segment :=
  match segments with
  | [] => segments
  | _ => imap (normalize_at segments (length segments)) segments
  end.

(** [_normalize_durations(segs)] where [segs] may be [None]. *)
Definition _normalize_durations_opt (segs : option (list segment))
  : option (list segment) :=
  match segs with
  | None => None
  | Some l => Some (_normalize_durations l)
  end.

(* ===================================================================== *)
(** ** The outside world *)
(* ===================================================================== *)

(** A caption track as the caption library describes it. *)
Record Transcript := {
  language : string;
  language_code : string;
  is_generated : bool;
  is_translatable : bool
}.

Abbreviation path := string (only parsing).

(** The operations the program calls on its collaborators, over an abstract
    world [X]: the clock, the random generator, the process environment, the
    caption library ([YouTubeTranscriptApi]), and the audio and STT helpers
    whose bodies are subprocess and SDK calls. *)
Record Env (X : Type) := {
  time_time : X -> Q * X;
  time_sleep : Q -> X -> X;
  random_uniform : Q -> Q -> X -> Q * X;
  (** [os.getenv(name)] *)
  getenv : string -> X -> option string;
  (** [int(s)] on a [str] *)
  int_of_str : string -> option Z;
  (** [supports_listing()] *)
  supports_listing : X -> bool;
  (** [YouTubeTranscriptApi.list_transcripts(video_id)], as the list its
      iteration yields *)
  list_transcripts : string -> M X (list Transcript);
  (** [tr.translate(lang)] *)
  translate : Transcript -> string -> M X Transcript;
  (** [tr.fetch()] *)
  fetch : Transcript -> M X (list segment);
  (** [YouTubeTranscriptApi.get_transcript(video_id, languages=langs)] *)
  get_transcript : string -> list string -> M X (list segment);
  _download_audio_tmp : string -> M X (option path);
  _whisper_transcribe_segments : path -> string -> M X (option (list segment));
  _split_audio_ffmpeg : path -> Z -> M X (list path);
  _gemini_transcribe_files :
    list path -> string -> option string -> M X (option (list segment));
  (** [p.parent] and [shutil.rmtree(p, ignore_errors=True)] *)
  path_parent : path -> path;
  rmtree : path -> X -> X
}.
Arguments time_time {X} _ _.
Arguments time_sleep {X} _ _ _.
Arguments random_uniform {X} _ _ _ _.
Arguments getenv {X} _ _ _.
Arguments int_of_str {X} _ _.
Arguments supports_listing {X} _ _.
Arguments list_transcripts {X} _ _ _.
Arguments translate {X} _ _ _ _.
Arguments fetch {X} _ _ _.
Arguments get_transcript {X} _ _ _ _.
Arguments _download_audio_tmp {X} _ _ _.
Arguments _whisper_transcribe_segments {X} _ _ _ _.
Arguments _split_audio_ffmpeg {X} _ _ _ _.
Arguments _gemini_transcribe_files {X} _ _ _ _ _.
Arguments path_parent {X} _ _.
Arguments rmtree {X} _ _ _.

(* ===================================================================== *)
(** ** SuccessCache and FailureCache *)
(* ===================================================================== *)

Abbreviation key := (string * string * bool)%type.

(** The process state: the two module-level dictionaries and the world. *)
Record State (X : Type) := {
  _CACHE : gmap key (Q * list segment);
  _FAIL_CACHE : gmap key (Q * Z);
  ext : X
}.
Arguments _CACHE {X} _.
Arguments _FAIL_CACHE {X} _.
Arguments ext {X} _.

Definition CACHE_TTL_SECONDS : Z := 60 * 30.
Definition FAIL_TTL_SECONDS_DEFAULT : Z := 60 * 5.

(** [a > b] on floats *)
Definition Qgtb (a b : Q) : bool := negb (Qle_bool a b).

(** [int(q)]: truncation towards zero. *)
Definition int_of_float (q : Q) : Z := Z.quot (Qnum q) (Zpos (Qden q)).

Section Caches.
Context {X : Type} (env : Env X).

(** Run a computation on the world inside the process state. *)
Definition lift {A} (m : M X A) : M (State X) A :=
  fun st => let (r, x1) := m (ext st) in
            (r, {| _CACHE := _CACHE st; _FAIL_CACHE := _FAIL_CACHE st; ext := x1 |}).

Definition cache_get (video_id lang : string) (disable_translate : bool)
  : State X -> option (list segment) * State X :=
  fun st =>
  let key := (video_id, lang, disable_translate) in
  match _CACHE st !! key with
  | None => (None, st)
  | Some (ts, data) =>
      let (now, x1) := time_time env (ext st) in
      if Qgtb (now - ts) (inject_Z CACHE_TTL_SECONDS)
      then (None, {| _CACHE := delete key (_CACHE st);
                     _FAIL_CACHE := _FAIL_CACHE st; ext := x1 |})
      else (Some data, {| _CACHE := _CACHE st;
                          _FAIL_CACHE := _FAIL_CACHE st; ext := x1 |})
  end.

Definition cache_set (video_id lang : string) (disable_translate : bool)
    (data : list segment) : State X -> State X :=
  fun st =>
  let key := (video_id, lang, disable_translate) in
  let (now, x1) := time_time env (ext st) in
  {| _CACHE := <[key := (now, data)]> (_CACHE st);
     _FAIL_CACHE := _FAIL_CACHE st; ext := x1 |}.

Definition fail_cache_get (video_id lang : string) (disable_translate : bool)
  : State X -> option Z * State X :=
  fun st =>
  let key := (video_id, lang, disable_translate) in
  match _FAIL_CACHE st !! key with
  | None => (None, st)
  | Some (ts, retry_sec) =>
      let (now, x1) := time_time env (ext st) in
      if Qgtb (now - ts) (inject_Z retry_sec)
      then (None, {| _CACHE := _CACHE st;
                     _FAIL_CACHE := delete key (_FAIL_CACHE st); ext := x1 |})
      else
        let (now2, x2) := time_time env x1 in
        let remaining := Z.max 1 (int_of_float (inject_Z retry_sec - (now2 - ts))) in
        (Some remaining, {| _CACHE := _CACHE st;
                            _FAIL_CACHE := _FAIL_CACHE st; ext := x2 |})
  end.

(** [retry_after_seconds or FAIL_TTL_SECONDS_DEFAULT]: [None] and [0] are
    falsy. *)
Definition or_default (retry_after_seconds : option Z) : Z :=
  match retry_after_seconds with
  | None => FAIL_TTL_SECONDS_DEFAULT
  | Some 0%Z => FAIL_TTL_SECONDS_DEFAULT
  | Some c => c
  end.

Definition fail_cache_set (video_id lang : string) (disable_translate : bool)
    (retry_after_seconds : option Z) : State X -> State X :=
  fun st =>
  let key := (video_id, lang, disable_translate) in
  let (now, x1) := time_time env (ext st) in
  {| _CACHE := _CACHE st;
     _FAIL_CACHE := <[key := (now, or_default retry_after_seconds)]> (_FAIL_CACHE st);
     ext := x1 |}.

End Caches.

(* ===================================================================== *)
(** ** TranscriptSourceSelector: [fetch_transcript_segments] *)
(* ===================================================================== *)

(** [for x in xs: body], where the body either returns from the enclosing
    function ([Some]) or falls through to the next iteration ([None]). *)
Fixpoint for_return {W A B} (xs : list A) (body : A -> M W (option B))
  : M W (option B) :=
  match xs with
  | [] => ret None
  | x :: rest =>
      (do o <- body x;
       match o with
       | Some b => ret (Some b)
       | None => for_return rest body
       end)%m
  end.

(** Sequencing of two blocks, the first of which may return. *)
Definition or_next {W B} (m k : M W (option B)) : M W (option B) :=
  (do o <- m;
   match o with
   | Some b => ret (Some b)
   | None => k
   end)%m.

(** [s[k]] on a dict. *)
Definition subscript (s : segment) (k : string) : outcome pyval :=
  match s !! k with
  | Some v => Returned v
  | None => Raised (Exn KeyError ("'" ++ k ++ "'"))
  end.

(** [{"text": s["text"], "start": s["start"], "duration": s["duration"]}] *)
Definition project_one (s : segment) : outcome segment :=
  match subscript s "text" with
  | Raised e => Raised e
  | Returned t =>
      match subscript s "start" with
      | Raised e => Raised e
      | Returned st =>
          match subscript s "duration" with
          | Raised e => Raised e
          | Returned d =>
              Returned (<["duration" := d]> (<["start" := st]> {["text" := t]}))
          end
      end
  end.

(** The list comprehension over [data]. *)
Fixpoint project (data : list segment) : outcome (list segment) :=
  match data with
  | [] => Returned []
  | s :: rest =>
      match project_one s with
      | Raised e => Raised e
      | Returned s' =>
          match project rest with
          | Raised e => Raised e
          | Returned rest' => Returned (s' :: rest')
          end
      end
  end.

(** The comprehension over an [Optional[list]]: iterating [None] raises. *)
Definition project_opt {W} (data : option (list segment)) : M W (list segment) :=
  fun w =>
  match data with
  | Some d => (project d, w)
  | None => (Raised (Exn OtherException "'NoneType' object is not iterable"), w)
  end.

(** Modelled from the spec: the caption library's
    [find_manually_created_transcript(codes)], the manually created track
    matching exactly one of the codes, tried in order; [NoTranscriptFound]
    when there is none. *)
Fixpoint find_manually_created_transcript (list_obj : list Transcript)
    (codes : list string) : outcome Transcript :=
  match codes with
  | [] => Raised (Exn NoTranscriptFound "no transcript found")
  | c :: rest =>
      match List.find (fun tr => negb (is_generated tr) && String.eqb (language_code tr) c)
                      list_obj with
      | Some tr => Returned tr
      | None => find_manually_created_transcript list_obj rest
      end
  end.

(** Modelled from the spec: the caption library's
    [find_generated_transcript(codes)], the same over generated tracks. *)
Fixpoint find_generated_transcript (list_obj : list Transcript)
    (codes : list string) : outcome Transcript :=
  match codes with
  | [] => Raised (Exn NoTranscriptFound "no transcript found")
  | c :: rest =>
      match List.find (fun tr => is_generated tr && String.eqb (language_code tr) c)
                      list_obj with
      | Some tr => Returned tr
      | None => find_generated_transcript list_obj rest
      end
  end.

Definition pure_outcome {W A} (o : outcome A) : M W A := fun w => (o, w).

Section Selector.
Context {X : Type} (env : Env X).

(** [fetch_with_retry(op)] with the default [attempts] and [base_delay]. *)
Definition retry (op : M X (list segment)) : M X (option (list segment)) :=
  fetch_with_retry (random_uniform env) (time_sleep env) op
    default_attempts default_base_delay.

(** [data = fetch_with_retry(lambda: tr.fetch()); return [...]] *)
Definition fetch_and_return (tr : Transcript) : M X (option (list segment)) :=
  (do data <- retry (fetch env tr);
   do segs <- project_opt data;
   ret (Some segs))%m.

Definition try_get_transcript_simple (video_id : string)
    (preferred_langs : list string) : M X (option (list segment)) :=
  let candidates := [preferred_langs; ["en"]; ["en-US"]; ["en-GB"]] in
  for_return candidates (fun langs =>
    try_except
      (do data <- get_transcript env video_id langs;
       do segs <- pure_outcome (project data);
       ret (Some segs))%m
      (fun _ => ret None)).

(** 1) Manual transcript in preferred languages *)
Definition manual_tier (list_obj : list Transcript) (preferred_langs : list string)
  : M X (option (list segment)) :=
  for_return preferred_langs (fun l =>
    try_except
      (do tr <- pure_outcome (find_manually_created_transcript list_obj [l]);
       fetch_and_return tr)%m
      (fun _ => ret None)).

(** The body of the translate loop for one track. *)
Definition translate_one (lang : string) (tr : Transcript)
  : M X (option (list segment)) :=
  try_except
    (if is_translatable tr then
       let src_code := Str.lower (Str.or_else (language_code tr) "") in
       let tgt_code := Str.lower (Str.or_else lang "en") in
       if String.eqb src_code tgt_code then ret None
       else
         (do t <- translate env tr (Str.or_else lang "en");
          try_except (fetch_and_return t)
            (fun _ => try_except (fetch_and_return tr) (fun _ => ret None)))%m
     else ret None)
    (fun _ => ret None).

(** 2) Translate to the requested language, or degrade to the original *)
Definition translate_tier (list_obj : list Transcript) (lang : string)
    (disable_translate : bool) : M X (option (list segment)) :=
  if negb disable_translate then for_return list_obj (translate_one lang)
  else ret None.

(** 3) Generated transcript in preferred languages *)
Definition generated_tier (list_obj : list Transcript) (preferred_langs : list string)
  : M X (option (list segment)) :=
  for_return preferred_langs (fun l =>
    try_except
      (do tr <- pure_outcome (find_generated_transcript list_obj [l]);
       fetch_and_return tr)%m
      (fun _ => ret None)).

(** 4) AUTO mode: any manual track, then any generated track *)
Definition auto_tier (list_obj : list Transcript) (lang : string)
  : M X (option (list segment)) :=
  if String.eqb (Str.lower lang) "auto" then
    or_next
      (for_return list_obj (fun tr =>
         try_except
           (if negb (is_generated tr) then fetch_and_return tr else ret None)
           (fun _ => ret None)))
      (for_return list_obj (fun tr =>
         try_except
           (if is_generated tr then fetch_and_return tr else ret None)
           (fun _ => ret None)))
  else ret None.

(** 5) Last resort: the first fetchable track *)
Definition last_resort_tier (list_obj : list Transcript)
  : M X (option (list segment)) :=
  for_return list_obj (fun tr =>
    try_except (fetch_and_return tr) (fun _ => ret None)).

(** 6) Final direct fallback *)
Definition direct_tier (video_id : string) (preferred_langs : list string)
  : M X (option (list segment)) :=
  try_except
    (do data <- get_transcript env video_id preferred_langs;
     do segs <- pure_outcome (project data);
     ret (Some segs))%m
    (fun _ => ret None).

Definition fetch_transcript_segments (video_id lang : string)
    (disable_translate : bool) : M X (option (list segment)) :=
  fun x =>
  let preferred_langs := [lang; "en"; "en-US"; "en-GB"] in
  if negb (supports_listing env x)
  then try_get_transcript_simple video_id preferred_langs x
  else
    try_except
      (do list_obj <- list_transcripts env video_id;
       or_next (manual_tier list_obj preferred_langs)
      (or_next (translate_tier list_obj lang disable_translate)
      (or_next (generated_tier list_obj preferred_langs)
      (or_next (auto_tier list_obj lang)
      (or_next (last_resort_tier list_obj)
               (direct_tier video_id preferred_langs))))))%m
      (fun e =>
         match exn_cls e with
         | TranscriptsDisabled | NoTranscriptFound => ret None
         | _ => ret None
         end)
      x.

End Selector.

(* ===================================================================== *)
(** ** SttFallbackCoordinator *)
(* ===================================================================== *)

(** The query parameters and the header the route reads. *)
Record Request := {
  videoId : string;
  lang : string;
  disableTranslate : bool;
  sttFallback : bool;
  sttBackend : option string;
  forceSTT : bool;
  (** [request.headers.get("X-Gemini-Api-Key", "")] *)
  gemini_api_key_header : string
}.

(** [if segs:] on an [Optional[list]] *)
Definition truthy {A} (segs : option (list A)) : bool :=
  match segs with
  | Some (_ :: _) => true
  | _ => false
  end.

(** [if remaining:] on an [Optional[int]] *)
Definition truthy_int (r : option Z) : bool :=
  match r with
  | Some n => negb (n =? 0)%Z
  | None => false
  end.

Section Stt.
Context {X : Type} (env : Env X).

(** [os.getenv("ENABLE_STT", "1").strip() != "0"] *)
Definition stt_enabled (x : X) : bool :=
  negb (String.eqb (Str.strip (default "1" (getenv env "ENABLE_STT" x))) "0").

(** [(sttBackend or os.getenv("STT_BACKEND", "openai")).strip().lower()] *)
Definition stt_backend (req : Request) (x : X) : string :=
  let from_env := default "openai" (getenv env "STT_BACKEND" x) in
  let chosen := match sttBackend req with
                | Some EmptyString | None => from_env
                | Some s => s
                end in
  Str.lower (Str.strip chosen).

Definition _stt_fallback (video_id lang : string) : M X (option (list segment)) :=
  (do audio <- _download_audio_tmp env video_id;
   match audio with
   | None => ret None
   | Some audio =>
       try_finally
         (do segs <- _whisper_transcribe_segments env audio lang;
          ret (_normalize_durations_opt segs))
         (rmtree env (path_parent env audio))
   end)%m.

(** The [finally] of the Gemini branch: remove the download directory, and
    the directory of the parts when [parts] is bound, non-empty and
    elsewhere. *)
Definition gemini_cleanup (audio : path) (parts : option (list path)) (x : X) : X :=
  let x1 := rmtree env (path_parent env audio) x in
  match parts with
  | Some (p0 :: _) =>
      if negb (String.eqb (path_parent env p0) (path_parent env audio))
      then rmtree env (path_parent env p0) x1
      else x1
  | _ => x1
  end.

(** The Gemini branch of the route: download, split, transcribe, clean up. *)
Definition gemini_stt (req : Request) (gem_override : option string)
  : M X (option (list segment)) :=
  (do audio <- _download_audio_tmp env (videoId req);
   match audio with
   | None => ret None
   | Some audio => fun x =>
       match int_of_str env (default "300" (getenv env "GEMINI_SEGMENT_SEC" x)) with
       | None =>
           (Raised (Exn ValueError "invalid literal for int() with base 10"),
            gemini_cleanup audio None x)
       | Some n =>
           match _split_audio_ffmpeg env audio n x with
           | (Raised e, x1) => (Raised e, gemini_cleanup audio None x1)
           | (Returned parts, x1) =>
               let (r, x2) :=
                 _gemini_transcribe_files env parts (lang req) gem_override x1 in
               (r, gemini_cleanup audio (Some parts) x2)
           end
       end
   end)%m.

(** The backend dispatch, which the route spells out once in each of its
    three STT blocks; [segs] stays [None] for [local] and unknown names. *)
Definition stt_dispatch (req : Request) (gem_override : option string)
    (backend : string) : M X (option (list segment)) :=
  if String.eqb backend "gemini" then gemini_stt req gem_override
  else if String.eqb backend "openai" then _stt_fallback (videoId req) (lang req)
  else ret None.

End Stt.

(* ===================================================================== *)
(** ** The [/transcript] route *)
(* ===================================================================== *)

Definition http_exception (status : Z) (detail : string)
    (headers : list (string * string)) : exn :=
  Exn (HTTPException status headers) detail.

(** A step that cannot raise, and a step that only changes the state. *)
Definition total {W A} (f : W -> A * W) : M W A :=
  fun w => let (a, w1) := f w in (Returned a, w1).
Definition effect {W} (f : W -> W) : M W unit :=
  fun w => (Returned tt, f w).

(** [gem_override = gem_header if gem_header else None], for the stripped
    header. *)
Definition gem_override_of (req : Request) : option string :=
  let gem_header := Str.strip (gemini_api_key_header req) in
  match gem_header with
  | EmptyString => None
  | _ => Some gem_header
  end.

Section Route.
Context {X : Type} (env : Env X).
(** The selector the route calls. *)
Variable selector : string -> string -> bool -> M X (option (list segment)).

(** 2) The forced STT branch *)
Definition force_stt_branch (req : Request) (gem_override : option string)
  : M (State X) (list segment) :=
  fun st =>
  let enable_env := stt_enabled env (ext st) in
  let backend := stt_backend env req (ext st) in
  if negb enable_env
  then (Raised (http_exception 400 "STT is disabled by ENABLE_STT=0" []), st)
  else
    (do segs <- lift (stt_dispatch env req gem_override backend);
     match segs with
     | Some (s :: l) =>
         (do _ <- effect (cache_set env (videoId req) (lang req)
                            (disableTranslate req) (s :: l));
          ret (s :: l))
     | _ => raise (http_exception 502
                     "forceSTT failed: no segments produced by backend" [])
     end)%m st.

(** The [if sttFallback and enable_env:] block shared in shape by the two
    failure paths: [Some segs] when it returned [segs] from the route. *)
Definition stt_fallback_block (req : Request) (gem_override : option string)
  : M (State X) (option (list segment)) :=
  fun st =>
  let enable_env := stt_enabled env (ext st) in
  let backend := stt_backend env req (ext st) in
  if sttFallback req && enable_env then
    (do segs <- lift (stt_dispatch env req gem_override backend);
     match segs with
     | Some (s :: l) =>
         (do _ <- effect (cache_set env (videoId req) (lang req)
                            (disableTranslate req) (s :: l));
          ret (Some (s :: l)))
     | _ => ret None
     end)%m st
  else (Returned None, st).

(** The [except Exception] handler around the selector call *)
Definition exception_path (req : Request) (gem_override : option string)
  : M (State X) (list segment) :=
  (do r <- stt_fallback_block req gem_override;
   match r with
   | Some segs => ret segs
   | None =>
       (do _ <- effect (fail_cache_set env (videoId req) (lang req)
                          (disableTranslate req) (Some 120%Z));
        raise (http_exception 429 "Upstream error. Please retry later."
                 [("Retry-After", "120")]))
   end)%m.

(** The [if not data:] block *)
Definition no_data_path (req : Request) (gem_override : option string)
  : M (State X) (list segment) :=
  (do r <- stt_fallback_block req gem_override;
   match r with
   | Some segs => ret segs
   | None =>
       (do _ <- effect (fail_cache_set env (videoId req) (lang req)
                          (disableTranslate req) (Some 300%Z));
        raise (http_exception 429
                 "Transcript temporarily unavailable (throttled or no captions). STT fallback may be disabled or unavailable."
                 [("Retry-After", "300")]))
   end)%m.

(** 3) The upstream fetch and what follows it, once both caches missed *)
Definition after_caches (req : Request) (gem_override : option string)
  : M (State X) (list segment) :=
  if forceSTT req then force_stt_branch req gem_override
  else fun st =>
    match lift (selector (videoId req) (lang req) (disableTranslate req)) st with
    | (Raised e, st1) => exception_path req gem_override st1
    | (Returned (Some (s :: l)), st1) =>
        (do _ <- effect (cache_set env (videoId req) (lang req)
                           (disableTranslate req) (s :: l));
         ret (s :: l))%m st1
    | (Returned _, st1) => no_data_path req gem_override st1
    end.

Definition transcript_with (req : Request) : M (State X) (list segment) :=
  let gem_override := gem_override_of req in
  (do data <- total (cache_get env (videoId req) (lang req) (disableTranslate req));
   match data with
   | Some (s :: l) => ret (s :: l)
   | _ =>
     (do remaining <- total (fail_cache_get env (videoId req) (lang req)
                               (disableTranslate req));
      if truthy_int remaining then
        raise (http_exception 429
                 "Upstream rate limited recently. Please retry later."
                 [("Retry-After", pretty (default 0%Z remaining))])
      else after_caches req gem_override)
   end)%m.

End Route.

(** The route as deployed, calling [fetch_transcript_segments]. *)
Definition transcript {X} (env : Env X) (req : Request)
  : M (State X) (list segment) :=
  transcript_with env (fetch_transcript_segments env) req.

(* ===================================================================== *)
(** ** Notions used in the statements *)
(* ===================================================================== *)

(** The process state at start-up: both dictionaries empty. *)
Definition empty_state {X} (x : X) : State X :=
  {| _CACHE := ∅; _FAIL_CACHE := ∅; ext := x |}.

(** The same dictionaries in another world. *)
Definition with_ext {X Y} (st : State X) (y : Y) : State Y :=
  {| _CACHE := _CACHE st; _FAIL_CACHE := _FAIL_CACHE st; ext := y |}.

(** The segment carries a duration that [float()] accepts and that is
    positive. *)
Definition valid_positive_duration (s : segment) : Prop :=
  exists d q, s !! "duration" = Some d /\ py_float d = Some q /\ (0 < q)%Q.

(** The segment carries the float [x] as its start. *)
Definition float_start (s : segment) (x : Q) : Prop :=
  s !! "start" = Some (PyFloat x).

(** The same collaborators with another [translate] operation. *)
Definition with_translate {X} (env : Env X)
    (tr' : Transcript -> string -> M X Transcript) : Env X := {|
  time_time := time_time env;
  time_sleep := time_sleep env;
  random_uniform := random_uniform env;
  getenv := getenv env;
  int_of_str := int_of_str env;
  supports_listing := supports_listing env;
  list_transcripts := list_transcripts env;
  translate := tr';
  fetch := fetch env;
  get_transcript := get_transcript env;
  _download_audio_tmp := _download_audio_tmp env;
  _whisper_transcribe_segments := _whisper_transcribe_segments env;
  _split_audio_ffmpeg := _split_audio_ffmpeg env;
  _gemini_transcribe_files := _gemini_transcribe_files env;
  path_parent := path_parent env;
  rmtree := rmtree env
|}.

(** Every success-cache entry of [st'] is an entry of [st] or holds a
    non-empty list. *)
Definition stores_only_nonempty {X} (st st' : State X) : Prop :=
  forall (k : key) (ts : Q) (data : list segment),
    _CACHE st' !! k = Some (ts, data) ->
    _CACHE st !! k = Some (ts, data) \/ data <> [].

(* ===================================================================== *)
(** ** Test doubles *)
(* ===================================================================== *)

(** An operation that plays a script: each call pops the next outcome. *)
Definition scripted {A} : M (list (outcome (list A))) (list A) :=
  fun w =>
  match w with
  | [] => (Raised (Exn OtherException "end of script"), [])
  | o :: rest => (o, rest)
  end.

(** A random generator that always draws the lower bound, and a sleep that
    leaves the world alone. *)
Definition no_jitter {W} (a _ : Q) (w : W) : Q * W := (a, w).
Definition no_sleep {W} (_ : Q) (w : W) : W := w.

Definition seg (text : string) (start duration : Q) : segment :=
  <["duration" := PyFloat duration]>
    (<["start" := PyFloat start]> {["text" := py_str text]}).

Definition err429 : exn := Exn OtherException "HTTP Error 429: Too Many Requests".
Definition err_gone : exn := Exn OtherException "Video unavailable".

(** A simulated world: a clock, and the log of the calls made to the
    collaborators, most recent first. *)
Record Sim := { sim_clock : Q; sim_log : list string }.

Definition logged (what : string) (x : Sim) : Sim :=
  {| sim_clock := sim_clock x; sim_log := what :: sim_log x |}.

(** What the simulated collaborators answer. *)
Record Answers := {
  ans_listing : bool;
  ans_tracks : outcome (list Transcript);
  ans_fetch : Transcript -> outcome (list segment);
  ans_translate : Transcript -> string -> outcome Transcript;
  ans_direct : outcome (list segment);
  ans_getenv : string -> option string;
  ans_audio : option path;
  ans_whisper : option (list segment);
  ans_gemini : option (list segment)
}.

(** Decimal digits only. *)
Fixpoint digits_value (s : string) (acc : Z) : option Z :=
  match s with
  | EmptyString => Some acc
  | String c r =>
      let n := Ascii.nat_of_ascii c in
      if (48 <=? n)%nat && (n <=? 57)%nat
      then digits_value r (10 * acc + Z.of_nat (n - 48))
      else None
  end.

Definition sim_int_of_str (s : string) : option Z :=
  match s with
  | EmptyString => None
  | _ => digits_value s 0
  end.

Definition sim_env (a : Answers) : Env Sim := {|
  time_time := fun x => (sim_clock x, x);
  time_sleep := fun _ x => logged "sleep" x;
  random_uniform := fun lo _ x => (lo, x);
  getenv := fun name _ => ans_getenv a name;
  int_of_str := sim_int_of_str;
  supports_listing := fun _ => ans_listing a;
  list_transcripts := fun _ x => (ans_tracks a, logged "list_transcripts" x);
  translate := fun tr l x => (ans_translate a tr l, logged "translate" x);
  fetch := fun tr x => (ans_fetch a tr, logged ("fetch " ++ language tr) x);
  get_transcript := fun _ _ x => (ans_direct a, logged "get_transcript" x);
  _download_audio_tmp := fun _ x => (Returned (ans_audio a), logged "download" x);
  _whisper_transcribe_segments :=
    fun _ _ x => (Returned (ans_whisper a), logged "whisper" x);
  _split_audio_ffmpeg := fun p _ x => (Returned [p], logged "split" x);
  _gemini_transcribe_files :=
    fun _ _ _ x => (Returned (ans_gemini a), logged "gemini" x);
  path_parent := fun _ => "/tmp/yt_stt";
  rmtree := fun _ x => logged "rmtree" x
|}.

(** Collaborators that have nothing: no listing support and failing calls. *)
Definition nothing : Answers := {|
  ans_listing := false;
  ans_tracks := Raised (Exn TranscriptsDisabled "Subtitles are disabled for this video");
  ans_fetch := fun _ => Raised err_gone;
  ans_translate := fun _ _ => Raised (Exn OtherException "not translatable");
  ans_direct := Raised err_gone;
  ans_getenv := fun _ => None;
  ans_audio := None;
  ans_whisper := None;
  ans_gemini := None
|}.

Definition at_time (t : Q) : Sim := {| sim_clock := t; sim_log := [] |}.



Definition manual_en : Transcript :=
  {| language := "English"; language_code := "en";
     is_generated := false; is_translatable := true |}.
Definition generated_en : Transcript :=
  {| language := "English (auto-generated)"; language_code := "en";
     is_generated := true; is_translatable := true |}.
Definition manual_de : Transcript :=
  {| language := "Deutsch"; language_code := "de";
     is_generated := false; is_translatable := true |}.
Definition translated_en : Transcript :=
  {| language := "English (translated)"; language_code := "en";
     is_generated := false; is_translatable := false |}.

(** A video without captions. *)
Definition captions_disabled : Answers := {|
  ans_listing := true;
  ans_tracks := ans_tracks nothing;
  ans_fetch := ans_fetch nothing;
  ans_translate := ans_translate nothing;
  ans_direct := ans_direct nothing;
  ans_getenv := ans_getenv nothing;
  ans_audio := None;
  ans_whisper := None;
  ans_gemini := None
|}.

(** A video with a generated and a manual English track, both fetchable. *)
Definition two_english : Answers := {|
  ans_listing := true;
  ans_tracks := Returned [generated_en; manual_en];
  ans_fetch := fun tr => if is_generated tr then Returned [seg "auto" 0 1]
                         else Returned [seg "manual" 0 1];
  ans_translate := ans_translate nothing;
  ans_direct := ans_direct nothing;
  ans_getenv := ans_getenv nothing;
  ans_audio := None;
  ans_whisper := None;
  ans_gemini := None
|}.

(** A video with one German manual track whose English translation is
    rate limited. *)
Definition german_only : Answers := {|
  ans_listing := true;
  ans_tracks := Returned [manual_de];
  ans_fetch := fun tr => if String.eqb (language_code tr) "de"
                         then Returned [seg "hallo" 0 1]
                         else Raised err429;
  ans_translate := fun _ _ => Returned translated_en;
  ans_direct := ans_direct nothing;
  ans_getenv := ans_getenv nothing;
  ans_audio := None;
  ans_whisper := None;
  ans_gemini := None
|}.


Definition plain_request : Request := {|
  videoId := "V1"; lang := "en"; disableTranslate := false;
  sttFallback := true; sttBackend := None; forceSTT := false;
  gemini_api_key_header := ""
|}.

Definition forced_request : Request := {|
  videoId := "V1"; lang := "en"; disableTranslate := false;
  sttFallback := true; sttBackend := None; forceSTT := true;
  gemini_api_key_header := ""
|}.

Definition empty_selector (_ _ : string) (_ : bool)
  : M Sim (option (list segment)) :=
  fun x => (Returned None, logged "selector" x).

(** A video whose every fetch is rate limited, with STT switched off. *)
Definition all_rate_limited : Answers := {|
  ans_listing := true;
  ans_tracks := Returned [manual_en];
  ans_fetch := fun _ => Raised err429;
  ans_translate := ans_translate nothing;
  ans_direct := Raised err429;
  ans_getenv := fun name => if String.eqb name "ENABLE_STT" then Some "0" else None;
  ans_audio := None;
  ans_whisper := None;
  ans_gemini := None
|}.

Definition request_key : key := ("V1", "en", false).

(* ===================================================================== *)
(** ** Further instrumentation *)
(* ===================================================================== *)

(** A world that also tallies the calls of the operation and the delays
    slept, most recent first. *)
Record Tally (W : Type) := { world : W; calls : nat; slept : list Q }.
Arguments world {W} _.
Arguments calls {W} _.
Arguments slept {W} _.

Definition tally_start {W} (w : W) : Tally W :=
  {| world := w; calls := 0; slept := [] |}.

Definition tally_call {W A} (op : M W A) : M (Tally W) A :=
  fun t => let (r, w1) := op (world t) in
           (r, {| world := w1; calls := S (calls t); slept := slept t |}).

Definition tally_uniform {W} (u : Q -> Q -> W -> Q * W) (a b : Q)
  : Tally W -> Q * Tally W :=
  fun t => let (x, w1) := u a b (world t) in
           (x, {| world := w1; calls := calls t; slept := slept t |}).

Definition tally_sleep {W} (s : Q -> W -> W) (d : Q) : Tally W -> Tally W :=
  fun t => {| world := s d (world t); calls := calls t; slept := d :: slept t |}.

(** The retry run on the tallying world. *)
Definition tallied_retry {W A} (u : Q -> Q -> W -> Q * W) (s : Q -> W -> W)
    (op : M W (list A)) (attempts : Z) (base_delay : Q) (w : W)
  : outcome (option (list A)) * Tally W :=
  fetch_with_retry (tally_uniform u) (tally_sleep s) (tally_call op)
    attempts base_delay (tally_start w).

(** The delays [ds], most recent first and the oldest at back-off index [i],
    each lie between [base * 2 ^ index] and that plus the jitter bound. *)
Fixpoint delays_within (base_delay : Q) (i : Z) (ds : list Q) : Prop :=
  match ds with
  | [] => True
  | d :: rest =>
      let idx := (i + Z.of_nat (length rest))%Z in
      (base_delay * 2 ^ idx <= d <= base_delay * 2 ^ idx + (3 # 5))%Q
      /\ delays_within base_delay i rest
  end.

(** A random generator that honours its bounds. *)
Definition uniform_in_range {W} (u : Q -> Q -> W -> Q * W) : Prop :=
  forall (a b : Q) (w : W), (a <= b)%Q -> (a <= (u a b w).1 <= b)%Q.

(** The time slept in all, in seconds. *)
Definition total_slept (ds : list Q) : Q := fold_right Qplus 0%Q ds.

(** A segment in the canonical shape: exactly the keys [text], [start] and
    [duration]. *)
Definition canonical (s : segment) : Prop :=
  dom s = ({["text"; "start"; "duration"]} : gset string).

(** Every list the computation returns satisfies [P]. *)
Definition returns_only {W B} (P : B -> Prop) (m : M W (option B)) : Prop :=
  forall (w w' : W) (b : B), m w = (Returned (Some b), w') -> P b.

(** The two English tracks again, with fetched items that carry one more
    key than the three the selector keeps. *)
Definition annotated_english : Answers := {|
  ans_listing := true;
  ans_tracks := Returned [generated_en; manual_en];
  ans_fetch := fun tr =>
    if is_generated tr then Returned [<["kind" := py_str "asr"]> (seg "auto" 0 1)]
    else Returned [<["kind" := py_str "manual"]> (seg "manual" 0 1)];
  ans_translate := ans_translate nothing;
  ans_direct := ans_direct nothing;
  ans_getenv := ans_getenv nothing;
  ans_audio := None;
  ans_whisper := None;
  ans_gemini := None
|}.



(** A generated-only video: one generated English and one generated German
    track. *)
Definition generated_de : Transcript :=
  {| language := "Deutsch (automatisch)"; language_code := "de";
     is_generated := true; is_translatable := false |}.

Definition generated_only : Answers := {|
  ans_listing := true;
  ans_tracks := Returned [generated_de; generated_en];
  ans_fetch := fun tr => if String.eqb (language_code tr) "de"
                         then Returned [seg "hallo" 0 1]
                         else Returned [seg "auto" 0 1];
  ans_translate := fun _ _ => Raised (Exn OtherException "translation language not available");
  ans_direct := ans_direct nothing;
  ans_getenv := ans_getenv nothing;
  ans_audio := None;
  ans_whisper := None;
  ans_gemini := None
|}.

(** The success cache after a step: untouched with nothing returned, or
    the returned list stored under the key. *)
Definition stored_or_same {X B} (k : key) (out : B -> option (list segment))
    (r : outcome B) (st st1 : State X) : Prop :=
  (_CACHE st1 = _CACHE st /\ forall b data, r = Returned b -> out b <> Some data)
  \/ exists t b data, r = Returned b /\ out b = Some data
       /\ _CACHE st1 = <[k := (t, data)]> (_CACHE st).

(** The same collaborators with other audio and STT helpers. *)
Definition with_stt_helpers {X} (env : Env X)
    (download : string -> M X (option path))
    (whisper : path -> string -> M X (option (list segment)))
    (split : path -> Z -> M X (list path))
    (gemini : list path -> string -> option string -> M X (option (list segment)))
    (parent : path -> path) (rm : path -> X -> X) : Env X := {|
  time_time := time_time env;
  time_sleep := time_sleep env;
  random_uniform := random_uniform env;
  getenv := getenv env;
  int_of_str := int_of_str env;
  supports_listing := supports_listing env;
  list_transcripts := list_transcripts env;
  translate := translate env;
  fetch := fetch env;
  get_transcript := get_transcript env;
  _download_audio_tmp := download;
  _whisper_transcribe_segments := whisper;
  _split_audio_ffmpeg := split;
  _gemini_transcribe_files := gemini;
  path_parent := parent;
  rmtree := rm
|}.

(* ===================================================================== *)
(** ** Gemini backend: [_gemini_transcribe_files] *)
(* ===================================================================== *)

(** What reading [resp.text] does: the attribute is missing, the property
    raises, or it yields a string or [None]. *)
Inductive text_attr :=
| NoTextAttr
| TextRaises (e : exn)
| TextIs (t : option string).

(** A response of [model.generate_content]: its [text], and the texts of
    the parts of its first candidate ([[]] when there is no candidate or no
    part, [Raised] when reading them raises). *)
Record GeminiResponse := {
  resp_text : text_attr;
  resp_parts : outcome (list string)
}.

(** The calls into the [google.generativeai] package and the prober. *)
Record GeminiSdk (X : Type) := {
  (** [import google.generativeai as genai] *)
  import_genai : M X unit;
  (** [genai.configure(api_key=...)] *)
  genai_configure : string -> M X unit;
  (** [genai.GenerativeModel(model_name)] *)
  generative_model : string -> M X unit;
  (** [genai.upload_file(path=str(p), mime_type=mime)], a file handle *)
  upload_file : path -> string -> M X string;
  (** [model.generate_content([file, prompt])] *)
  generate_content : string -> string -> M X GeminiResponse;
  (** [p.suffix] *)
  path_suffix : path -> string;
  _probe_duration_seconds : path -> M X (option Q)
}.
Arguments import_genai {X} _.
Arguments genai_configure {X} _ _.
Arguments generative_model {X} _ _.
Arguments upload_file {X} _ _ _.
Arguments generate_content {X} _ _ _.
Arguments path_suffix {X} _ _.
Arguments _probe_duration_seconds {X} _ _.

(** ["".join(...)] *)
Definition join (parts : list string) : string :=
  fold_right String.append "" parts.

(** The text of a response: [resp.text] stripped, else the joined parts of
    the first candidate stripped; [Raised] when reading [resp.text] raises. *)
Definition response_text (resp : GeminiResponse) : outcome string :=
  match resp_text resp with
  | TextRaises e => Raised e
  | attr =>
      let text := match attr with
                  | TextIs (Some t) => Str.strip t
                  | _ => ""
                  end in
      match text with
      | EmptyString =>
          let cand_text := match resp_parts resp with
                           | Returned parts => join parts
                           | Raised _ => ""
                           end in
          Returned (Str.strip cand_text)
      | _ => Returned text
      end
  end.

(** [{"text": text, "start": offset, "duration": 0.0}] *)
Definition chunk_segment (text : string) (offset : Q) : segment :=
  <["duration" := PyFloat 0]>
    (<["start" := PyFloat offset]> {["text" := py_str text]}).

Section Gemini.
Context {X : Type} (env : Env X) (sdk : GeminiSdk X).

(** The body of the [try] for one chunk, up to the segment it appends:
    [None] for the [continue] on an empty text. *)
Definition transcribe_chunk (lang : string) (p : path) (offset : Q)
  : M X (option segment) :=
  let mime := if String.eqb (Str.lower (path_suffix sdk p)) ".mp3"
              then "audio/mpeg" else "application/octet-stream" in
  let prompt := "Transcribe this audio to " ++ Str.or_else lang "English"
                ++ " text only. Return raw transcript without extra commentary." in
  (do file <- upload_file sdk p mime;
   do resp <- generate_content sdk file prompt;
   do text <- pure_outcome (response_text resp);
   match text with
   | EmptyString => ret None
   | _ => ret (Some (chunk_segment text offset))
   end)%m.

(** The loop over the chunks, with the list built so far and the offset.
    The segment is appended before the duration is probed, so that it stays
    in the list when the probe raises. *)
Fixpoint gemini_loop (lang : string) (paths : list path)
    (all_segments : list segment) (offset : Q) (x : X) : list segment * X :=
  match paths with
  | [] => (all_segments, x)
  | p :: rest =>
      match transcribe_chunk lang p offset x with
      | (Returned (Some sg), x1) =>
          let all_segments1 := (all_segments ++ [sg])%list in
          match _probe_duration_seconds sdk p x1 with
          | (Returned dur, x2) =>
              let step := match dur with
                          | Some d => if Qeq_bool d 0 then 0%Q else d
                          | None => 0%Q
                          end in
              gemini_loop lang rest all_segments1 (offset + step)%Q x2
          | (Raised _, x2) => gemini_loop lang rest all_segments1 offset x2
          end
      | (Returned None, x1) => gemini_loop lang rest all_segments offset x1
      | (Raised _, x1) => gemini_loop lang rest all_segments offset x1
      end
  end.

Definition _gemini_transcribe_files_impl (paths : list path) (lang : string)
    (api_key_override : option string) : M X (option (list segment)) :=
  fun x =>
  let from_env := default "" (getenv env "GOOGLE_API_KEY" x) in
  let api_key := Str.strip (match api_key_override with
                            | Some EmptyString | None => from_env
                            | Some k => k
                            end) in
  match api_key with
  | EmptyString => (Returned None, x)
  | _ =>
      match import_genai sdk x with
      | (Raised _, x1) => (Returned None, x1)
      | (Returned _, x1) =>
          try_except
            (do _ <- genai_configure sdk api_key;
             fun x2 =>
             let model_name := default "gemini-1.5-flash" (getenv env "GEMINI_MODEL" x2) in
             (do _ <- generative_model sdk model_name;
              fun x3 =>
              let (all_segments, x4) := gemini_loop lang paths [] 0 x3 in
              match all_segments with
              | [] => (Returned None, x4)
              | _ => (Returned (Some (_normalize_durations all_segments)), x4)
              end)%m x2)%m
            (fun _ => ret None) x1
      end
  end.

End Gemini.

(** The probe never reports a negative duration. *)
Definition probe_nonnegative {X} (sdk : GeminiSdk X) : Prop :=
  forall (p : path) (x x' : X) (d : Q),
    _probe_duration_seconds sdk p x = (Returned (Some d), x') -> (0 <= d)%Q.

(** Segments as the chunk loop builds them. *)
Definition chunk_shaped (s : segment) : Prop :=
  exists (t : string) (o : Q), s = chunk_segment t o.

(** Consecutive starts never decrease. *)
Definition starts_nondecreasing (l : list segment) : Prop :=
  forall (i : nat) (s s' : segment) (a b : Q),
    l !! i = Some s -> l !! S i = Some s' ->
    float_start s a -> float_start s' b -> (a <= b)%Q.

(** What the loop keeps true of the list it builds and of the offset. *)
Definition loop_inv (nonneg : bool) (acc : list segment) (offset : Q) : Prop :=
  Forall chunk_shaped acc
  /\ match acc with
     | [] => offset = 0%Q
     | s :: _ => float_start s 0
     end
  /\ (nonneg = true ->
      starts_nondecreasing acc
      /\ forall s a, s ∈ acc -> float_start s a -> (a <= offset)%Q).

(** A simulated package: every call succeeds, the text and the probed
    duration of a chunk are given by its path. *)
Definition sim_gemini (texts : path -> string) (durs : path -> option Q)
  : GeminiSdk Sim := {|
  import_genai := fun x => (Returned tt, x);
  genai_configure := fun _ x => (Returned tt, x);
  generative_model := fun _ x => (Returned tt, x);
  upload_file := fun p _ x => (Returned p, logged ("upload " ++ p) x);
  generate_content := fun file _ x =>
    (Returned {| resp_text := TextIs (Some (texts file)); resp_parts := Returned [] |}, x);
  path_suffix := fun _ => ".mp3";
  _probe_duration_seconds := fun p x => (Returned (durs p), x)
|}.

(** Three chunks of which the second yields only blanks. *)
Definition three_chunks : GeminiSdk Sim :=
  sim_gemini
    (fun p => if String.eqb p "part_000.mp3" then "one"
              else if String.eqb p "part_001.mp3" then "   "
              else "three ")
    (fun p => if String.eqb p "part_002.mp3" then Some 120%Q else Some 300%Q).

Definition three_paths : list path :=
  ["part_000.mp3"; "part_001.mp3"; "part_002.mp3"].

(* ===================================================================== *)
(** ** Whisper backend: [_whisper_transcribe_segments] *)
(* ===================================================================== *)

(** A segment object of the new SDK, by its attributes ([None] when the
    attribute is missing). *)
Record WhisperSegment := {
  ws_text : option pyval;
  ws_start : option pyval;
  ws_end : option pyval
}.

(** A segment of the legacy SDK: a [dict], or an object without [.get]. *)
Inductive LegacySegment :=
| LegacyDict (d : segment)
| LegacyObject.

(** A transcription response: its segments and its text, each [None] when
    missing or [None]. *)
Record WhisperResponse (S : Type) := {
  wr_segments : option (list S);
  wr_text : option string
}.
Arguments wr_segments {S} _.
Arguments wr_text {S} _.

(** The calls into the [openai] package, together with the opening of the
    audio file that precedes each request. *)
Record OpenAiSdk (X : Type) := {
  (** [from openai import OpenAI; client = OpenAI(); open(audio_path, "rb")] *)
  new_sdk_open : path -> M X unit;
  (** [client.audio.transcriptions.create(...)] *)
  new_sdk_create : path -> string -> M X (WhisperResponse WhisperSegment);
  (** [import openai; openai.api_key = api_key; open(audio_path, "rb")] *)
  legacy_open : string -> path -> M X unit;
  (** [openai.audio.transcriptions.create(...)] *)
  legacy_create : path -> string -> M X (WhisperResponse LegacySegment)
}.
Arguments new_sdk_open {X} _ _.
Arguments new_sdk_create {X} _ _ _.
Arguments legacy_open {X} _ _ _.
Arguments legacy_create {X} _ _ _.

(** [float(v)], raising on what [float()] rejects. *)
Definition float_or_raise (v : pyval) : outcome Q :=
  match py_float v with
  | Some q => Returned q
  | None => Raised (Exn ValueError "could not convert to float")
  end.

(** [{"text": text, "start": start, "duration": max(0.0, end - start)}] *)
Definition whisper_dict (text : pyval) (start end_ : Q) : segment :=
  <["duration" := PyFloat (max0 (end_ - start))]>
    (<["start" := PyFloat start]> {["text" := text]}).

(** One iteration of the loop over the segments of the new SDK. *)
Definition convert_new (s : WhisperSegment) : outcome segment :=
  match float_or_raise (default (PyFloat 0) (ws_start s)) with
  | Raised e => Raised e
  | Returned start =>
      match float_or_raise (default (PyFloat start) (ws_end s)) with
      | Raised e => Raised e
      | Returned end_ =>
          Returned (whisper_dict (default (py_str "") (ws_text s)) start end_)
      end
  end.

(** One iteration of the loop over the segments of the legacy SDK. *)
Definition convert_legacy (s : LegacySegment) : outcome segment :=
  match s with
  | LegacyObject => Raised (Exn OtherException "object has no attribute 'get'")
  | LegacyDict d =>
      match float_or_raise (dict_get d "start" (PyFloat 0)) with
      | Raised e => Raised e
      | Returned start =>
          match float_or_raise (dict_get d "end" (PyFloat start)) with
          | Raised e => Raised e
          | Returned end_ =>
              Returned (whisper_dict (dict_get d "text" (py_str "")) start end_)
          end
      end
  end.

Fixpoint convert_all {S} (conv : S -> outcome segment) (l : list S)
  : outcome (list segment) :=
  match l with
  | [] => Returned []
  | s :: rest =>
      match conv s with
      | Raised e => Raised e
      | Returned d =>
          match convert_all conv rest with
          | Raised e => Raised e
          | Returned out => Returned (d :: out)
          end
      end
  end.

(** What follows the request inside the inner [try]: the flat text when
    there are no segments, else the converted segments. *)
Definition segments_of_response {S} (conv : S -> outcome segment)
    (resp : WhisperResponse S) : outcome (option (list segment)) :=
  match wr_segments resp with
  | Some (s :: l) =>
      match convert_all conv (s :: l) with
      | Raised e => Raised e
      | Returned out => Returned (Some out)
      end
  | _ =>
      let text := default "" (wr_text resp) in
      match Str.strip text with
      | EmptyString => Returned None
      | _ => Returned (Some [<["duration" := PyFloat 0]>
                               (<["start" := PyFloat 0]> {["text" := py_str text]})])
      end
  end.

Section Whisper.
Context {X : Type} (env : Env X) (sdk : OpenAiSdk X).

(** A request and its inner [try]: every exception becomes [None]. *)
Definition request_or_none {S} (create : M X (WhisperResponse S))
    (conv : S -> outcome segment) : X -> outcome (option (list segment)) * X :=
  fun x =>
  match create x with
  | (Returned resp, x1) =>
      match segments_of_response conv resp with
      | Returned r => (Returned r, x1)
      | Raised _ => (Returned None, x1)
      end
  | (Raised _, x1) => (Returned None, x1)
  end.

Definition _whisper_transcribe_segments_impl (audio_path : path) (lang : string)
  : M X (option (list segment)) :=
  fun x =>
  let api_key := Str.strip (default "" (getenv env "OPENAI_API_KEY" x)) in
  let language := Str.or_else lang "en" in
  match api_key with
  | EmptyString => (Returned None, x)
  | _ =>
      match new_sdk_open sdk audio_path x with
      | (Returned _, x1) =>
          request_or_none (new_sdk_create sdk audio_path language) convert_new x1
      | (Raised _, x1) =>
          match legacy_open sdk api_key audio_path x1 with
          | (Returned _, x2) =>
              request_or_none (legacy_create sdk audio_path language) convert_legacy x2
          | (Raised _, x2) => (Returned None, x2)
          end
      end
  end.

End Whisper.

(** A segment as the Whisper path builds it: the three keys, a float start
    and a float duration that is not negative. *)
Definition whisper_shaped (s : segment) : Prop :=
  canonical s
  /\ exists x q, s !! "start" = Some (PyFloat x)
       /\ s !! "duration" = Some (PyFloat q) /\ (0 <= q)%Q.

(** A simulated [openai] package whose new SDK cannot be imported and
    whose legacy SDK answers with the given response. *)
Definition legacy_only (resp : WhisperResponse LegacySegment) : OpenAiSdk Sim := {|
  new_sdk_open := fun _ x => (Raised (Exn OtherException "cannot import name 'OpenAI'"), x);
  new_sdk_create := fun _ _ x => (Raised err_gone, x);
  legacy_open := fun _ _ x => (Returned tt, logged "open" x);
  legacy_create := fun _ _ x => (Returned resp, logged "create" x)
|}.

(** An environment in which [OPENAI_API_KEY] is set. *)
Definition with_openai_key : Answers := {|
  ans_listing := false;
  ans_tracks := ans_tracks nothing;
  ans_fetch := ans_fetch nothing;
  ans_translate := ans_translate nothing;
  ans_direct := ans_direct nothing;
  ans_getenv := fun name => if String.eqb name "OPENAI_API_KEY" then Some " sk-test " else None;
  ans_audio := None;
  ans_whisper := None;
  ans_gemini := None
|}.

(* ===================================================================== *)
(** ** The admin surface: [_require_admin], [admin_env_get], [admin_env_set] *)
(* ===================================================================== *)

(** [os.environ], for values without a NUL character. *)
Abbreviation environ := (gmap string string).

Definition ALLOWED_MUTABLE_ENV : list string :=
  ["ENABLE_STT"; "STT_BACKEND"; "GEMINI_MODEL"; "GEMINI_SEGMENT_SEC"].

Record EnvSetPayload := {
  payload_key : string;
  payload_value : option string
}.

(** ASCII upper-casing, for the runs below. *)
Definition upper_ascii (c : Ascii.ascii) : Ascii.ascii :=
  let n := Ascii.nat_of_ascii c in
  if (97 <=? n)%nat && (n <=? 122)%nat then Ascii.ascii_of_nat (n - 32) else c.

Fixpoint ascii_upper (s : string) : string :=
  match s with
  | EmptyString => EmptyString
  | String c r => String (upper_ascii c) (ascii_upper r)
  end.

Section Admin.
(** [str.upper] *)
Variable upper : string -> string.

(** [x_admin_token] is [request.headers.get("X-Admin-Token")]. *)
Definition _require_admin (x_admin_token : option string) (env : environ)
  : outcome unit :=
  let token_header := Str.strip (default "" x_admin_token) in
  let token_env := Str.strip (default "" (env !! "ADMIN_TOKEN")) in
  match token_env with
  | EmptyString =>
      Raised (http_exception 403 "Admin token not configured on server" [])
  | _ =>
      if negb (String.eqb token_header token_env)
      then Raised (http_exception 403 "Forbidden: invalid admin token" [])
      else Returned tt
  end.

(** [k in ALLOWED_MUTABLE_ENV] *)
Definition allowed (k : string) : bool :=
  existsb (String.eqb k) ALLOWED_MUTABLE_ENV.


Definition admin_env_set (x_admin_token : option string) (payload : EnvSetPayload)
    (env : environ) : outcome (string * option string) * environ :=
  match _require_admin x_admin_token env with
  | Raised e => (Raised e, env)
  | Returned _ =>
      let k := upper (Str.strip (payload_key payload)) in
      if negb (allowed k) then (Raised (http_exception 400 "Key not allowed" []), env)
      else
        let v := match payload_value payload with
                 | None => None
                 | Some value =>
                     match Str.strip value with
                     | EmptyString => None
                     | _ => Some value
                     end
                 end in
        let env1 := match v with
                    | None => delete k env
                    | Some value => <[k := value]> env
                    end in
        (Returned (k, env1 !! k), env1)
  end.

End Admin.

(* ===================================================================== *)
(** * Properties *)
(* ===================================================================== *)

(** ** RetryExecutor *)

(** The classification of the [except] clause on sample messages. *)
Example transient_rate_limit : transient err429 = true.
Proof. reflexivity. Qed.

Example transient_empty_data :
  transient (Exn ValueError "empty transcript data") = true.
Proof. reflexivity. Qed.

Example transient_empty_xml :
  transient (Exn OtherException "no element found: line 1, column 0") = true.
Proof. reflexivity. Qed.

Example not_transient_unavailable : transient err_gone = false.
Proof. reflexivity. Qed.

Section RetryFacts.
Context {W A : Type}.
Variable uniform : Q -> Q -> W -> Q * W.
Variable sleep : Q -> W -> W.
Variable fetch_call : M W (list A).

Lemma attempt_returned w v w1 :
  fetch_call w = (Returned v, w1) -> v <> [] ->
  attempt fetch_call w = (Returned v, w1).
Proof.
  intros Hc Hv. unfold attempt, bind. rewrite Hc.
  destruct v; [congruence | reflexivity].
Qed.

(** A run of transient failures is skipped over by the loop, as long as the
    indices stay below [attempts - 1]. *)
Lemma retry_from_skip attempts bd k i w w' n :
  fails_transiently uniform sleep fetch_call bd k i w w' ->
  (i + Z.of_nat k <= attempts - 1)%Z ->
  retry_from uniform sleep fetch_call attempts bd (k + n) i w
  = retry_from uniform sleep fetch_call attempts bd n (i + Z.of_nat k) w'.
Proof.
  induction 1 as [i w | k i w e w1 w' Ha Ht _ IH]; intros Hle.
  - simpl. by rewrite Z.add_0_r.
  - cbn [Nat.add retry_from]. rewrite Ha, Ht.
    replace (i <? attempts - 1)%Z with true by (symmetry; apply Z.ltb_lt; lia).
    cbn [andb]. rewrite IH by lia. f_equal. lia.
Qed.

Lemma attempt_counting w n :
  attempt (counting fetch_call) (w, n)
  = (let (r, w1) := attempt fetch_call w in (r, (w1, S n))).
Proof.
  unfold attempt, bind, counting.
  destruct (fetch_call w) as [[v|e] w1]; [|reflexivity].
  destruct v; reflexivity.
Qed.

Lemma backoff_counting bd i w (n : nat) :
  backoff (on_fst_uniform uniform) (on_fst_sleep sleep) bd i (w, n)
  = (backoff uniform sleep bd i w, n).
Proof.
  unfold backoff, on_fst_uniform, on_fst_sleep.
  by destruct (uniform 0 (3 # 5) w).
Qed.

(** Counting the calls changes nothing but the counter. *)
Lemma fails_transiently_counting bd k i w w' n :
  fails_transiently uniform sleep fetch_call bd k i w w' ->
  fails_transiently (on_fst_uniform uniform) (on_fst_sleep sleep)
    (counting fetch_call) bd k i (w, n) (w', n + k).
Proof.
  intros H. revert n.
  induction H as [i w | k i w e w1 w' Ha Ht _ IH]; intros n.
  - rewrite Nat.add_0_r. constructor.
  - eapply ft_step with (e := e) (w1 := (w1, S n)).
    + by rewrite attempt_counting, Ha.
    + done.
    + rewrite backoff_counting. replace (n + S k) with (S n + k) by lia. apply IH.
Qed.

Lemma retry_from_counting attempts bd m i w n :
  let '(r, (w', _)) :=
    retry_from (on_fst_uniform uniform) (on_fst_sleep sleep)
      (counting fetch_call) attempts bd m i (w, n) in
  retry_from uniform sleep fetch_call attempts bd m i w = (r, w').
Proof.
  revert i w n. induction m as [|m IH]; intros i w n; [reflexivity|].
  cbn [retry_from]. rewrite attempt_counting.
  destruct (attempt fetch_call w) as [[v|e] w1]; [reflexivity|].
  destruct ((i <? attempts - 1)%Z && transient e); [|reflexivity].
  rewrite backoff_counting. apply IH.
Qed.

End RetryFacts.

Section MoreRetry.
Context {W A : Type}.
Variable uniform : Q -> Q -> W -> Q * W.
Variable sleep : Q -> W -> W.
Variable fetch_call : M W (list A).

(** For any [attempts >= 1]: after [attempts - 1] transient failures the
    failure of the last attempt is raised, whatever its kind. *)
Lemma fetch_with_retry_exhausts (n : nat) bd w w' e w'' :
  fails_transiently uniform sleep fetch_call bd n 0 w w' ->
  attempt fetch_call w' = (Raised e, w'') ->
  fetch_with_retry uniform sleep fetch_call (Z.of_nat (S n)) bd w = (Raised e, w'').
Proof.
  intros Hft Ha. unfold fetch_with_retry.
  rewrite Nat2Z.id. replace (S n) with (n + 1)%nat at 2 by lia.
  rewrite (retry_from_skip _ _ _ _ _ _ _ _ _ _ Hft) by lia.
  cbn [retry_from]. rewrite Ha.
  replace (0 + Z.of_nat n <? Z.of_nat (S n) - 1)%Z with false
    by (symmetry; apply Z.ltb_ge; lia).
  reflexivity.
Qed.

(** With [attempts <= 0] the loop body never runs and the function falls off
    its end. *)
Lemma fetch_with_retry_no_attempts attempts bd w :
  (attempts <= 0)%Z ->
  fetch_with_retry uniform sleep fetch_call attempts bd w = (Returned None, w).
Proof.
  intros H. unfold fetch_with_retry.
  replace (Z.to_nat attempts) with 0%nat by lia. reflexivity.
Qed.

End MoreRetry.

(** C1. With the defaults [attempts = 5] and [base_delay = 1.2], for every
    operation, run on a world that also counts the calls made to it:
    four transient failures followed by a success return the success value,
    after five calls; four transient failures followed by a fifth failure
    (transient or not) raise that fifth failure, after exactly five calls;
    a non-transient failure of the first attempt is raised at once, after
    one call and no retry. *)
Theorem fetch_with_retry_defaults :
  forall (W A : Type) (uniform : Q -> Q -> W -> Q * W) (sleep : Q -> W -> W)
         (fetch_call : M W (list A)) (w0 : W) (n0 : nat),
  let run :=
    fetch_with_retry (on_fst_uniform uniform) (on_fst_sleep sleep)
      (counting fetch_call) default_attempts default_base_delay (w0, n0) in
  (forall w4 v w5,
      fails_transiently uniform sleep fetch_call default_base_delay 4 0 w0 w4 ->
      fetch_call w4 = (Returned v, w5) -> v <> [] ->
      run = (Returned (Some v), (w5, n0 + 5)))
  /\ (forall w4 e w5,
      fails_transiently uniform sleep fetch_call default_base_delay 4 0 w0 w4 ->
      attempt fetch_call w4 = (Raised e, w5) ->
      run = (Raised e, (w5, n0 + 5)))
  /\ (forall e w1,
      attempt fetch_call w0 = (Raised e, w1) -> transient e = false ->
      run = (Raised e, (w1, n0 + 1))).
Proof.
  intros W A uniform sleep fetch_call w0 n0 run. subst run.
  unfold fetch_with_retry, default_attempts.
  change (Z.to_nat 5) with (4 + 1). repeat split.
  - intros w4 v w5 Hft Hc Hv.
    rewrite (retry_from_skip _ _ _ 5 _ 4 0 (w0, n0) (w4, n0 + 4) 1
               (fails_transiently_counting _ _ _ _ _ _ _ _ n0 Hft)) by lia.
    cbn [retry_from]. rewrite attempt_counting, (attempt_returned _ _ _ _ Hc Hv).
    do 3 f_equal. lia.
  - intros w4 e w5 Hft Ha.
    rewrite (retry_from_skip _ _ _ 5 _ 4 0 (w0, n0) (w4, n0 + 4) 1
               (fails_transiently_counting _ _ _ _ _ _ _ _ n0 Hft)) by lia.
    cbn [retry_from]. rewrite attempt_counting, Ha.
    change (0 + Z.of_nat 4 <? 5 - 1)%Z with false. cbn [andb].
    do 2 f_equal. lia.
  - intros e w1 Ha Ht. cbn [Nat.add retry_from].
    rewrite attempt_counting, Ha, Ht, andb_false_r.
    do 2 f_equal. lia.
Qed.

Lemma fetch_with_retry_defaults_witness :
  let run script :=
    fetch_with_retry (on_fst_uniform no_jitter) (on_fst_sleep no_sleep)
      (counting scripted) default_attempts default_base_delay (script, 0) in
  run [Raised err429; Returned []; Raised err429; Returned [];
       Returned [seg "hello" 0 1]; Raised err_gone]
  = (Returned (Some [seg "hello" 0 1]), ([Raised err_gone], 5))
  /\ run [Raised err429; Returned []; Raised err429; Returned [];
          Raised err429; Returned [seg "hello" 0 1]]
     = (Raised err429, ([Returned [seg "hello" 0 1]], 5))
  /\ run [Raised err_gone; Returned [seg "hello" 0 1]]
     = (Raised err_gone, ([Returned [seg "hello" 0 1]], 1)).
Proof.
  intros run. subst run. cbv beta.
  split; [|split].
  - apply (proj1 (fetch_with_retry_defaults _ _ no_jitter no_sleep scripted _ 0))
      with (w4 := [Returned [seg "hello" 0 1]; Raised err_gone]).
    + repeat (eapply ft_step; [reflexivity | reflexivity | ]); apply ft_done.
    + reflexivity.
    + discriminate.
  - apply (proj1 (proj2 (fetch_with_retry_defaults _ _ no_jitter no_sleep scripted _ 0)))
      with (w4 := [Raised err429; Returned [seg "hello" 0 1]]).
    + repeat (eapply ft_step; [reflexivity | reflexivity | ]); apply ft_done.
    + reflexivity.
  - apply (proj2 (proj2 (fetch_with_retry_defaults _ _ no_jitter no_sleep scripted _ 0))).
    + reflexivity.
    + reflexivity.
Defined.

(** ** SuccessCache and FailureCache *)

Lemma Qgtb_true a b : Qgtb a b = true <-> (b < a)%Q.
Proof.
  unfold Qgtb. rewrite negb_true_iff, <- not_true_iff_false, Qle_bool_iff.
  split; [apply Qnot_le_lt | apply Qlt_not_le].
Qed.

Lemma Qgtb_false a b : Qgtb a b = false <-> (a <= b)%Q.
Proof. unfold Qgtb. by rewrite negb_false_iff, Qle_bool_iff. Qed.

(** Truncation never exceeds an integer bound of its argument. *)
Lemma int_of_float_le (q : Q) (c : Z) : (q <= inject_Z c)%Q -> (int_of_float q <= c)%Z.
Proof.
  destruct q as [a b]. unfold Qle, int_of_float. simpl. intros H.
  rewrite Z.mul_1_r in H.
  destruct (Z.le_gt_cases a 0) as [Ha | Ha].
  - destruct (Z.le_gt_cases 0 c) as [Hc | Hc].
    + etransitivity; [|exact Hc]. apply Z.quot_le_upper_bound; lia.
    + apply Z.quot_le_upper_bound; lia.
  - apply Z.quot_le_upper_bound; lia.
Qed.

Section CacheFacts.
Context {X : Type} (env : Env X).

(** C5. After [cache_set(key, v)] at clock reading [t0], and with no later
    write under the key, [cache_get(key)] at clock reading [now] returns [v]
    and leaves the dictionary alone when [now - t0 <= 1800]; when
    [now - t0 > 1800] it returns [None] and the dictionary it leaves behind
    is the old one with the key deleted. *)
Theorem cache_get_after_set :
  forall (video_id lang : string) (disable_translate : bool) (v : list segment)
         (st0 st : State X) (t0 now : Q) (x0 x1 : X),
  let k := (video_id, lang, disable_translate) in
  time_time env (ext st0) = (t0, x0) ->
  _CACHE st !! k = _CACHE (cache_set env video_id lang disable_translate v st0) !! k ->
  time_time env (ext st) = (now, x1) ->
  ((now - t0 <= 1800)%Q ->
     cache_get env video_id lang disable_translate st
     = (Some v, {| _CACHE := _CACHE st; _FAIL_CACHE := _FAIL_CACHE st; ext := x1 |}))
  /\ ((1800 < now - t0)%Q ->
     cache_get env video_id lang disable_translate st
     = (None, {| _CACHE := delete k (_CACHE st);
                 _FAIL_CACHE := _FAIL_CACHE st; ext := x1 |})
     /\ delete k (_CACHE st) !! k = None).
Proof.
  intros video_id lang dt v st0 st t0 now x0 x1 k Ht0 Hk Hnow.
  unfold cache_set in Hk. rewrite Ht0 in Hk. cbn [_CACHE] in Hk.
  fold k in Hk. rewrite lookup_insert_eq in Hk.
  unfold cache_get. fold k. rewrite Hk, Hnow.
  split.
  - intros Hle. apply Qgtb_false in Hle. change (inject_Z CACHE_TTL_SECONDS) with 1800%Q.
    by rewrite Hle.
  - intros Hgt. apply Qgtb_true in Hgt. change (inject_Z CACHE_TTL_SECONDS) with 1800%Q.
    rewrite Hgt. split; [done | apply lookup_delete_eq].
Qed.

(** C6. After [fail_cache_set(key, c)] with [c > 0] at clock reading [t0],
    and with no later write under the key: when the first clock reading
    [now1] of [fail_cache_get(key)] has [now1 - t0 <= c], it returns
    [max(1, int(c - (now2 - t0)))] for its second reading [now2], a value
    between [1] and [c]; when [now1 - t0 > c] it returns [None] and leaves
    the dictionary with the key deleted. *)
Theorem fail_cache_get_after_set :
  forall (video_id lang : string) (disable_translate : bool) (c : Z)
         (st0 st : State X) (t0 now1 : Q) (x0 x1 : X),
  let k := (video_id, lang, disable_translate) in
  (0 < c)%Z ->
  time_time env (ext st0) = (t0, x0) ->
  _FAIL_CACHE st !! k
    = _FAIL_CACHE (fail_cache_set env video_id lang disable_translate (Some c) st0) !! k ->
  time_time env (ext st) = (now1, x1) ->
  (forall now2 x2,
     (now1 - t0 <= inject_Z c)%Q -> time_time env x1 = (now2, x2) -> (t0 <= now2)%Q ->
     let r := Z.max 1 (int_of_float (inject_Z c - (now2 - t0))) in
     fail_cache_get env video_id lang disable_translate st
     = (Some r, {| _CACHE := _CACHE st; _FAIL_CACHE := _FAIL_CACHE st; ext := x2 |})
     /\ (1 <= r <= c)%Z)
  /\ ((inject_Z c < now1 - t0)%Q ->
     fail_cache_get env video_id lang disable_translate st
     = (None, {| _CACHE := _CACHE st; _FAIL_CACHE := delete k (_FAIL_CACHE st);
                 ext := x1 |})
     /\ delete k (_FAIL_CACHE st) !! k = None).
Proof.
  intros video_id lang dt c st0 st t0 now1 x0 x1 k Hc Ht0 Hk Hnow.
  unfold fail_cache_set in Hk. rewrite Ht0 in Hk. cbn [_FAIL_CACHE] in Hk.
  fold k in Hk. rewrite lookup_insert_eq in Hk.
  assert (or_default (Some c) = c) as Hd by (destruct c; [lia | done | done]).
  rewrite Hd in Hk.
  unfold fail_cache_get. fold k. rewrite Hk, Hnow.
  split.
  - intros now2 x2 Hle Hnow2 Hmono. cbv zeta. apply Qgtb_false in Hle.
    rewrite Hle, Hnow2. split; [done|]. split; [lia|].
    apply Z.max_lub; [lia|]. apply int_of_float_le. lra.
  - intros Hgt. apply Qgtb_true in Hgt. rewrite Hgt.
    split; [done | apply lookup_delete_eq].
Qed.

End CacheFacts.

Lemma cache_get_after_set_witness :
  let env := sim_env nothing in
  let v := [seg "hello" 0 1] in
  let st1 := cache_set env "V1" "en" false v (empty_state (at_time 100)) in
  cache_get env "V1" "en" false (with_ext st1 (at_time 1900))
  = (Some v, with_ext st1 (at_time 1900))
  /\ cache_get env "V1" "en" false (with_ext st1 (at_time 1901))
     = (None, empty_state (at_time 1901)).
Proof.
  intros env v st1. split.
  - apply (proj1 (cache_get_after_set env "V1" "en" false v
                    (empty_state (at_time 100)) (with_ext st1 (at_time 1900))
                    100 1900 (at_time 100) (at_time 1900)
                    eq_refl eq_refl eq_refl)).
    vm_compute. discriminate.
  - etransitivity.
    + apply (proj2 (cache_get_after_set env "V1" "en" false v
                      (empty_state (at_time 100)) (with_ext st1 (at_time 1901))
                      100 1901 (at_time 100) (at_time 1901)
                      eq_refl eq_refl eq_refl)).
      vm_compute. reflexivity.
    + vm_compute. reflexivity.
Defined.

Lemma fail_cache_get_after_set_witness :
  let env := sim_env nothing in
  let st1 := fail_cache_set env "V1" "en" false (Some 120%Z) (empty_state (at_time 100)) in
  fail_cache_get env "V1" "en" false (with_ext st1 (at_time (2011 # 10)))
  = (Some 18%Z, with_ext st1 (at_time (2011 # 10)))
  /\ fail_cache_get env "V1" "en" false (with_ext st1 (at_time 221))
     = (None, empty_state (at_time 221)).
Proof.
  intros env st1. split.
  - apply (proj1 (fail_cache_get_after_set env "V1" "en" false 120
                    (empty_state (at_time 100)) (with_ext st1 (at_time (2011 # 10)))
                    100 (2011 # 10) (at_time 100) (at_time (2011 # 10))
                    eq_refl eq_refl eq_refl eq_refl) (2011 # 10) (at_time (2011 # 10))).
    + vm_compute. discriminate.
    + reflexivity.
    + vm_compute. discriminate.
  - etransitivity.
    + apply (proj2 (fail_cache_get_after_set env "V1" "en" false 120
                      (empty_state (at_time 100)) (with_ext st1 (at_time 221))
                      100 221 (at_time 100) (at_time 221)
                      eq_refl eq_refl eq_refl eq_refl)).
      vm_compute. reflexivity.
    + vm_compute. reflexivity.
Defined.

(** ** DurationNormalizer *)

Lemma needs_fill_false_iff (s : segment) :
  needs_fill (dict_get s "duration" (PyFloat 0)) = false <-> valid_positive_duration s.
Proof.
  unfold needs_fill, dict_get, valid_positive_duration. split.
  - destruct (s !! "duration") as [d|] eqn:Hd; simpl.
    + destruct (py_float d) as [q|] eqn:Hq; [|discriminate].
      intros H. exists d, q. repeat split; [done|].
      apply Qnot_le_lt. intros Hle. apply Qle_bool_iff in Hle. congruence.
    + discriminate.
  - intros (d & q & Hd & Hq & Hpos). rewrite Hd. simpl. rewrite Hq.
    apply not_true_iff_false. rewrite Qle_bool_iff. by apply Qlt_not_le.
Qed.

Lemma needs_fill_true_iff (s : segment) :
  needs_fill (dict_get s "duration" (PyFloat 0)) = true <-> ~ valid_positive_duration s.
Proof.
  rewrite <- needs_fill_false_iff. destruct (needs_fill _); split; congruence.
Qed.

Lemma normalize_durations_lookup (segments : list segment) (i : nat) :
  _normalize_durations segments !! i
  = normalize_at segments (length segments) i <$> segments !! i.
Proof. destruct segments; [by destruct i | apply list_lookup_imap]. Qed.

Lemma normalize_at_valid segments n i s x :
  float_start s x -> valid_positive_duration s ->
  normalize_at segments n i s = s.
Proof.
  intros Hs Hv. unfold normalize_at.
  rewrite (proj2 (needs_fill_false_iff s) Hv).
  destruct Hv as (d & q & Hd & _). unfold dict_get. rewrite Hs, Hd. simpl.
  rewrite (insert_id s "start") by done. by apply insert_id.
Qed.

Lemma normalize_at_fill segments n i s x :
  float_start s x -> ~ valid_positive_duration s ->
  normalize_at segments n i s
  = <["duration" := PyFloat (filled segments n i x)]> s.
Proof.
  intros Hs Hv. unfold normalize_at.
  rewrite (proj2 (needs_fill_true_iff s) Hv).
  unfold dict_get, _safe_float. rewrite Hs. simpl.
  by rewrite (insert_id s "start").
Qed.



(** ** TranscriptSourceSelector *)

(** What the modelled lookups of the caption library find. *)
Lemma find_manually_created_sound tracks c m :
  find_manually_created_transcript tracks [c] = Returned m ->
  m ∈ tracks /\ is_generated m = false /\ language_code m = c.
Proof.
  cbn [find_manually_created_transcript].
  destruct (List.find _ tracks) as [tr|] eqn:Hf; [|discriminate].
  intros [= ->]. apply List.find_some in Hf as [Hin Hp].
  apply andb_true_iff in Hp as [Hg Hc].
  apply negb_true_iff in Hg. apply String.eqb_eq in Hc.
  split; [by apply list_elem_of_In | done].
Qed.

Lemma find_manually_created_complete tracks c m :
  m ∈ tracks -> is_generated m = false -> language_code m = c ->
  exists m', find_manually_created_transcript tracks [c] = Returned m'.
Proof.
  intros Hin Hg Hc. cbn [find_manually_created_transcript].
  destruct (List.find _ tracks) as [tr|] eqn:Hf; [by exists tr|].
  apply list_elem_of_In in Hin.
  pose proof (List.find_none _ _ Hf m Hin) as Hn. cbn beta in Hn.
  rewrite Hg, Hc, String.eqb_refl in Hn. discriminate.
Qed.

Section SelectorFacts.
Context {X : Type} (env : Env X).

Lemma fetch_and_return_ok tr x x' data segs :
  retry env (fetch env tr) x = (Returned (Some data), x') ->
  project data = Returned segs ->
  fetch_and_return env tr x = (Returned (Some segs), x').
Proof.
  intros Hr Hp. unfold fetch_and_return, bind. rewrite Hr.
  unfold project_opt. by rewrite Hp.
Qed.

Lemma fetch_and_return_raised tr x x' e :
  retry env (fetch env tr) x = (Raised e, x') ->
  fetch_and_return env tr x = (Raised e, x').
Proof. intros Hr. unfold fetch_and_return, bind. by rewrite Hr. Qed.

(** Past a prefix of the loop that returned nothing, the loop goes on with
    the rest. *)
Lemma for_return_app {A B} (pre post : list A) (body : A -> M X (option B)) x x' :
  for_return pre body x = (Returned None, x') ->
  for_return (pre ++ post) body x = for_return post body x'.
Proof.
  revert x. induction pre as [|a pre IH]; intros x H; simpl in *.
  - by injection H as ->.
  - unfold bind in *. destruct (body a x) as [[[b|]|e] x1]; try discriminate.
    by apply IH.
Qed.

(** A loop whose body never raises never raises. *)
Lemma for_return_total {A B} (xs : list A) (body : A -> M X (option B)) :
  (forall a x, exists r x', body a x = (Returned r, x')) ->
  forall x, exists r x', for_return xs body x = (Returned r, x').
Proof.
  intros Hb. induction xs as [|a xs IH]; intros x; simpl.
  - by exists None, x.
  - unfold bind. destruct (Hb a x) as (r & x1 & ->).
    destruct r as [b|]; [by exists (Some b), x1 | apply IH].
Qed.

Lemma try_except_none_total {B} (m : M X (option B)) x :
  exists r x', try_except m (fun _ => ret None) x = (Returned r, x').
Proof.
  unfold try_except. destruct (m x) as [[r|e] x1]; [by exists r, x1|].
  by exists None, x1.
Qed.

(** The selector catches every exception of its collaborators: it always
    returns, so the route's handler around it never runs in the deployed
    composition. *)
Lemma fetch_transcript_segments_returns video_id lang disable_translate x :
  exists r x',
    fetch_transcript_segments env video_id lang disable_translate x
    = (Returned r, x').
Proof.
  unfold fetch_transcript_segments.
  destruct (supports_listing env x); cbn [negb].
  - unfold try_except.
    destruct (bind _ _ x) as [[r|e] x1]; [by exists r, x1|].
    destruct (exn_cls e); by exists None, x1.
  - apply for_return_total. intros langs x0. apply try_except_none_total.
Qed.

End SelectorFacts.

(** C8. When the listing is supported and the enumeration raises
    [TranscriptsDisabled] or [NoTranscriptFound], the selector returns [None]
    (it does not raise) and leaves the world as the enumeration left it: no
    tier is attempted, nothing is fetched or retried. *)
Theorem no_transcripts_is_terminal :
  forall (X : Type) (env : Env X) (video_id lang : string) (disable_translate : bool)
         (x x1 : X) (e : exn),
  supports_listing env x = true ->
  list_transcripts env video_id x = (Raised e, x1) ->
  exn_cls e = TranscriptsDisabled \/ exn_cls e = NoTranscriptFound ->
  fetch_transcript_segments env video_id lang disable_translate x
  = (Returned None, x1).
Proof.
  intros X env video_id lang dt x x1 e Hs Hl He.
  unfold fetch_transcript_segments. rewrite Hs. cbn [negb].
  unfold try_except, bind. rewrite Hl.
  by destruct He as [-> | ->].
Qed.

(** C2. When the listing holds a manually created track and a generated
    track, both with code [en], and the retried fetch of the manual track
    returns well-formed data, the selector called with [lang = "en"] returns
    the manual track's segments, and the world is the one that fetch left:
    the generated track is not fetched. *)
Theorem manual_english_preferred :
  forall (X : Type) (env : Env X) (video_id : string) (disable_translate : bool)
         (x x1 x2 : X) (tracks : list Transcript) (m g : Transcript)
         (data segs : list segment),
  supports_listing env x = true ->
  list_transcripts env video_id x = (Returned tracks, x1) ->
  find_manually_created_transcript tracks ["en"] = Returned m ->
  find_generated_transcript tracks ["en"] = Returned g ->
  retry env (fetch env m) x1 = (Returned (Some data), x2) ->
  project data = Returned segs ->
  fetch_transcript_segments env video_id "en" disable_translate x
  = (Returned (Some segs), x2).
Proof.
  intros X env video_id dt x x1 x2 tracks m g data segs Hs Hl Hm _ Hr Hp.
  unfold fetch_transcript_segments. rewrite Hs. cbn [negb].
  unfold try_except at 1. unfold bind at 1. rewrite Hl.
  unfold or_next at 1. unfold bind at 1.
  unfold manual_tier. cbn [for_return]. unfold bind at 1.
  unfold try_except at 1. unfold bind at 1. unfold pure_outcome. rewrite Hm.
  by rewrite (fetch_and_return_ok env m x1 x2 data segs Hr Hp).
Qed.

(** C3. With [disable_translate = False]: when the manual tier returns
    nothing, the translate loop passes the tracks before [tr] without a
    result, [tr] is translatable with a source code other than the target,
    and the retried fetch of its translation raises, then the selector
    fetches [tr] itself through the retry wrapper and, that fetch returning
    well-formed data, returns its segments.  With [disable_translate = True]
    the translate tier does nothing, and the selector's result and final
    world do not depend on what the [translate] operation would do. *)
Theorem translate_degrades_to_original :
  forall (X : Type) (env : Env X) (video_id lang : string),
  (forall (x x1 x2 x3 x4 x5 x6 : X) (pre post : list Transcript)
          (tr t : Transcript) (e : exn) (data segs : list segment),
      supports_listing env x = true ->
      list_transcripts env video_id x = (Returned (pre ++ tr :: post)%list, x1) ->
      manual_tier env (pre ++ tr :: post)%list [lang; "en"; "en-US"; "en-GB"] x1
      = (Returned None, x2) ->
      for_return pre (translate_one env lang) x2 = (Returned None, x3) ->
      is_translatable tr = true ->
      Str.lower (Str.or_else (language_code tr) "")
      <> Str.lower (Str.or_else lang "en") ->
      translate env tr (Str.or_else lang "en") x3 = (Returned t, x4) ->
      retry env (fetch env t) x4 = (Raised e, x5) ->
      retry env (fetch env tr) x5 = (Returned (Some data), x6) ->
      project data = Returned segs ->
      fetch_transcript_segments env video_id lang false x
      = (Returned (Some segs), x6))
  /\ (forall (list_obj : list Transcript),
      translate_tier env list_obj lang true = ret None)
  /\ (forall (tr' : Transcript -> string -> M X Transcript) (x : X),
      fetch_transcript_segments (with_translate env tr') video_id lang true x
      = fetch_transcript_segments env video_id lang true x).
Proof.
  intros X env video_id lang. split; [|split].
  - intros x x1 x2 x3 x4 x5 x6 pre post tr t e data segs
      Hs Hl Hman Hpre Htr Hne Ht Hfail Hsrc Hp.
    unfold fetch_transcript_segments. rewrite Hs. cbn [negb].
    unfold try_except at 1. unfold bind at 1. rewrite Hl.
    unfold or_next at 1. unfold bind at 1. rewrite Hman.
    unfold or_next at 1. unfold bind at 1.
    unfold translate_tier. cbn [negb].
    rewrite (for_return_app pre (tr :: post) _ x2 x3 Hpre).
    cbn [for_return]. unfold bind at 1.
    unfold translate_one at 1. rewrite Htr.
    apply String.eqb_neq in Hne. rewrite Hne.
    unfold try_except at 1. unfold bind at 1. rewrite Ht.
    unfold try_except at 1.
    rewrite (fetch_and_return_raised env t x4 x5 e Hfail).
    unfold try_except at 1.
    by rewrite (fetch_and_return_ok env tr x5 x6 data segs Hsrc Hp).
  - reflexivity.
  - reflexivity.
Qed.

Lemma no_transcripts_is_terminal_witness :
  fetch_transcript_segments (sim_env captions_disabled) "V1" "en" false (at_time 0)
  = (Returned None, logged "list_transcripts" (at_time 0)).
Proof.
  apply (no_transcripts_is_terminal Sim (sim_env captions_disabled) "V1" "en" false
           (at_time 0) (logged "list_transcripts" (at_time 0))
           (Exn TranscriptsDisabled "Subtitles are disabled for this video")).
  - reflexivity.
  - reflexivity.
  - left. reflexivity.
Defined.

Lemma manual_english_preferred_witness :
  fetch_transcript_segments (sim_env two_english) "V1" "en" false (at_time 0)
  = (Returned (Some [seg "manual" 0 1]),
     {| sim_clock := 0; sim_log := ["fetch English"; "list_transcripts"] |}).
Proof.
  apply (manual_english_preferred Sim (sim_env two_english) "V1" false
           (at_time 0) (logged "list_transcripts" (at_time 0))
           {| sim_clock := 0; sim_log := ["fetch English"; "list_transcripts"] |}
           [generated_en; manual_en] manual_en generated_en
           [seg "manual" 0 1] [seg "manual" 0 1]).
  - reflexivity.
  - reflexivity.
  - reflexivity.
  - reflexivity.
  - reflexivity.
  - vm_compute. reflexivity.
Defined.

Lemma translate_degrades_to_original_witness :
  fetch_transcript_segments (sim_env german_only) "V1" "en" false (at_time 0)
  = (Returned (Some [seg "hallo" 0 1]),
     {| sim_clock := 0;
        sim_log := ["fetch Deutsch";
                    "fetch English (translated)"; "sleep";
                    "fetch English (translated)"; "sleep";
                    "fetch English (translated)"; "sleep";
                    "fetch English (translated)"; "sleep";
                    "fetch English (translated)";
                    "translate"; "list_transcripts"] |}).
Proof.
  apply (proj1 (translate_degrades_to_original Sim (sim_env german_only) "V1" "en")
           (at_time 0) (logged "list_transcripts" (at_time 0))
           (logged "list_transcripts" (at_time 0))
           (logged "list_transcripts" (at_time 0))
           (logged "translate" (logged "list_transcripts" (at_time 0)))
           {| sim_clock := 0;
              sim_log := ["fetch English (translated)"; "sleep";
                          "fetch English (translated)"; "sleep";
                          "fetch English (translated)"; "sleep";
                          "fetch English (translated)"; "sleep";
                          "fetch English (translated)";
                          "translate"; "list_transcripts"] |}
           _ [] [] manual_de translated_en err429
           [seg "hallo" 0 1] [seg "hallo" 0 1]).
  - reflexivity.
  - reflexivity.
  - reflexivity.
  - reflexivity.
  - reflexivity.
  - vm_compute. discriminate.
  - reflexivity.
  - reflexivity.
  - reflexivity.
  - vm_compute. reflexivity.
Defined.

(** ** The route *)

Section RouteFacts.
Context {X : Type} (env : Env X).
Variable selector : string -> string -> bool -> M X (option (list segment)).

Lemma stores_refl (st : State X) : stores_only_nonempty st st.
Proof. intros k ts data H. by left. Qed.

Lemma stores_trans (a b c : State X) :
  stores_only_nonempty a b -> stores_only_nonempty b c -> stores_only_nonempty a c.
Proof.
  intros Hab Hbc k ts data H.
  destruct (Hbc k ts data H) as [H1 | H1]; [by apply Hab | by right].
Qed.

Lemma stores_same_cache (a b : State X) :
  _CACHE b = _CACHE a -> stores_only_nonempty a b.
Proof. intros Heq k ts data H. left. by rewrite <- Heq. Qed.

Lemma cache_get_stores v l d st d' st1 :
  cache_get env v l d st = (d', st1) -> stores_only_nonempty st st1.
Proof.
  unfold cache_get. destruct (_CACHE st !! (v, l, d)) as [[ts data]|].
  - destruct (time_time env (ext st)) as [now x1].
    destruct (Qgtb _ _); intros [= <- <-].
    + intros k ts' data' H. cbn [_CACHE] in H. left.
      apply lookup_delete_Some in H. tauto.
    + by apply stores_same_cache.
  - intros [= <- <-]. apply stores_refl.
Qed.

Lemma fail_cache_get_stores v l d st r st1 :
  fail_cache_get env v l d st = (r, st1) -> stores_only_nonempty st st1.
Proof.
  unfold fail_cache_get. destruct (_FAIL_CACHE st !! (v, l, d)) as [[ts c]|].
  - destruct (time_time env (ext st)) as [now x1].
    destruct (Qgtb _ _).
    + intros [= <- <-]. by apply stores_same_cache.
    + destruct (time_time env x1) as [now2 x2].
      intros [= <- <-]. by apply stores_same_cache.
  - intros [= <- <-]. apply stores_refl.
Qed.

Lemma lift_stores {A} (m : M X A) st r st1 :
  lift m st = (r, st1) -> stores_only_nonempty st st1.
Proof.
  unfold lift. destruct (m (ext st)) as [r' x1]. intros [= <- <-].
  by apply stores_same_cache.
Qed.

Lemma cache_set_stores v l d data st :
  data <> [] -> stores_only_nonempty st (cache_set env v l d data st).
Proof.
  intros Hne k ts data' H. unfold cache_set in H.
  destruct (time_time env (ext st)) as [now x1]. cbn [_CACHE] in H.
  destruct (decide ((v, l, d) = k)) as [<- | Hk].
  - rewrite lookup_insert_eq in H. injection H as <- <-. by right.
  - rewrite lookup_insert_ne in H by done. by left.
Qed.

Lemma fail_cache_set_stores v l d c st :
  stores_only_nonempty st (fail_cache_set env v l d c st).
Proof.
  apply stores_same_cache. unfold fail_cache_set.
  by destruct (time_time env (ext st)).
Qed.

Lemma stt_fallback_block_inv req gem st r st1 :
  stt_fallback_block env req gem st = (r, st1) ->
  stores_only_nonempty st st1
  /\ (forall segs, r = Returned (Some segs) -> segs <> []).
Proof.
  unfold stt_fallback_block.
  destruct (sttFallback req && stt_enabled env (ext st)).
  - unfold bind. destruct (lift _ st) as [[segs | e] st2] eqn:Hl.
    + apply lift_stores in Hl. destruct segs as [[|s l]|].
      * intros [= <- <-]. split; [done | discriminate].
      * unfold effect, ret. intros [= <- <-]. split.
        -- eapply stores_trans; [exact Hl | by apply cache_set_stores].
        -- by intros segs [= <-].
      * intros [= <- <-]. split; [done | discriminate].
    + apply lift_stores in Hl. intros [= <- <-]. split; [done | discriminate].
  - intros [= <- <-]. split; [apply stores_refl | discriminate].
Qed.

Lemma failure_path_inv req gem c msg hdr st r st1 :
  (do r <- stt_fallback_block env req gem;
   match r with
   | Some segs => ret segs
   | None =>
       (do _ <- effect (fail_cache_set env (videoId req) (lang req)
                          (disableTranslate req) c);
        raise (http_exception 429 msg hdr))
   end)%m st = (r, st1) ->
  stores_only_nonempty st st1 /\ (forall data, r = Returned data -> data <> []).
Proof.
  unfold bind.
  destruct (stt_fallback_block env req gem st) as [[[segs|]|e] st2] eqn:Hb;
    apply stt_fallback_block_inv in Hb as [Hst Hne].
  - unfold ret. intros [= <- <-]. split; [done|]. intros data [= <-]. by apply Hne.
  - unfold effect, raise. intros [= <- <-]. split; [|discriminate].
    eapply stores_trans; [exact Hst | apply fail_cache_set_stores].
  - intros [= <- <-]. split; [done | discriminate].
Qed.

Lemma force_stt_branch_inv req gem st r st1 :
  force_stt_branch env req gem st = (r, st1) ->
  stores_only_nonempty st st1 /\ (forall data, r = Returned data -> data <> []).
Proof.
  unfold force_stt_branch. destruct (negb (stt_enabled env (ext st))).
  - intros [= <- <-]. split; [apply stores_refl | discriminate].
  - unfold bind. destruct (lift _ st) as [[segs | e] st2] eqn:Hl;
      apply lift_stores in Hl.
    + destruct segs as [[|s l]|].
      * unfold raise. intros [= <- <-]. split; [done | discriminate].
      * unfold effect, ret. intros [= <- <-]. split.
        -- eapply stores_trans; [exact Hl | by apply cache_set_stores].
        -- by intros data [= <-].
      * unfold raise. intros [= <- <-]. split; [done | discriminate].
    + intros [= <- <-]. split; [done | discriminate].
Qed.

Lemma after_caches_inv req gem st r st1 :
  after_caches env selector req gem st = (r, st1) ->
  stores_only_nonempty st st1 /\ (forall data, r = Returned data -> data <> []).
Proof.
  unfold after_caches. destruct (forceSTT req); [apply force_stt_branch_inv|].
  destruct (lift _ st) as [[data | e] st2] eqn:Hl; apply lift_stores in Hl.
  - destruct data as [[|s l]|].
    + intros H. apply failure_path_inv in H as [H1 H2].
      split; [by eapply stores_trans | done].
    + unfold bind, effect, ret. intros [= <- <-]. split.
      * eapply stores_trans; [exact Hl | by apply cache_set_stores].
      * by intros data [= <-].
    + intros H. apply failure_path_inv in H as [H1 H2].
      split; [by eapply stores_trans | done].
  - intros H. apply failure_path_inv in H as [H1 H2].
    split; [by eapply stores_trans | done].
Qed.

Lemma transcript_with_inv req st r st1 :
  transcript_with env selector req st = (r, st1) ->
  stores_only_nonempty st st1 /\ (forall data, r = Returned data -> data <> []).
Proof.
  unfold transcript_with, bind, total.
  destruct (cache_get env _ _ _ st) as [data st2] eqn:Hc.
  apply cache_get_stores in Hc.
  destruct data as [[|s l]|]; cycle 1.
  { unfold ret. intros [= <- <-]. split; [done|]. by intros data [= <-]. }
  all: destruct (fail_cache_get env _ _ _ st2) as [rem st3] eqn:Hf;
    apply fail_cache_get_stores in Hf;
    destruct (truthy_int rem);
    [ unfold raise; intros [= <- <-]; split;
      [by eapply stores_trans | discriminate]
    | intros H; apply after_caches_inv in H as [H1 H2]; split;
      [eapply stores_trans; [exact Hc|]; by eapply stores_trans | done] ].
Qed.

End RouteFacts.

(** The STT block yields nothing when the caller or the environment has
    switched the fallback off. *)
Lemma stt_fallback_block_off {X} (env : Env X) req gem (st : State X) :
  sttFallback req && stt_enabled env (ext st) = false ->
  stt_fallback_block env req gem st = (Returned None, st).
Proof. intros H. unfold stt_fallback_block. by rewrite H. Qed.

(** The STT block yields nothing when the backend produces no segments. *)
Lemma stt_fallback_block_no_segments {X} (env : Env X) req gem (st st1 : State X) segs :
  sttFallback req && stt_enabled env (ext st) = true ->
  lift (stt_dispatch env req gem (stt_backend env req (ext st))) st
  = (Returned segs, st1) ->
  truthy segs = false ->
  stt_fallback_block env req gem st = (Returned None, st1).
Proof.
  intros H Hl Hs. unfold stt_fallback_block, bind. rewrite H, Hl.
  by destruct segs as [[|s l]|].
Qed.


(** C9. With [forceSTT] on: a success-cache entry for the key that holds a
    non-empty list and is at most 1800 seconds old is the response, and the
    world is the one the single clock reading left, so that no STT helper
    ran; when the success cache yields nothing and the failure cache holds
    an entry within its cooldown, the response is the 429 carrying the
    remaining seconds, again with nothing but clock readings done. *)
Theorem force_stt_consults_caches :
  forall (X : Type) (env : Env X)
         (selector : string -> string -> bool -> M X (option (list segment)))
         (req : Request) (st : State X),
  let k := (videoId req, lang req, disableTranslate req) in
  forceSTT req = true ->
  (forall (ts now : Q) (data : list segment) (x1 : X),
      _CACHE st !! k = Some (ts, data) -> data <> [] ->
      time_time env (ext st) = (now, x1) -> (now - ts <= 1800)%Q ->
      transcript_with env selector req st = (Returned data, with_ext st x1))
  /\ (forall (cached : option (list segment)) (st1 : State X) (ts : Q) (c : Z)
             (now1 now2 : Q) (x1 x2 : X),
      cache_get env (videoId req) (lang req) (disableTranslate req) st
      = (cached, st1) ->
      truthy cached = false ->
      _FAIL_CACHE st1 !! k = Some (ts, c) ->
      time_time env (ext st1) = (now1, x1) -> (now1 - ts <= inject_Z c)%Q ->
      time_time env x1 = (now2, x2) ->
      transcript_with env selector req st
      = (Raised (http_exception 429
                   "Upstream rate limited recently. Please retry later."
                   [("Retry-After",
                     pretty (Z.max 1 (int_of_float (inject_Z c - (now2 - ts)))))]),
         with_ext st1 x2)).
Proof.
  intros X env selector req st k Hforce. split.
  - intros ts now data x1 Hk Hne Hnow Hfresh.
    unfold transcript_with, bind, total, cache_get. fold k.
    rewrite Hk, Hnow. apply Qgtb_false in Hfresh.
    change (inject_Z CACHE_TTL_SECONDS) with 1800%Q. rewrite Hfresh.
    by destruct data.
  - intros cached st1 ts c now1 now2 x1 x2 Hc Hcached Hk Hnow1 Hin Hnow2.
    unfold transcript_with, bind, total. rewrite Hc.
    assert (fail_cache_get env (videoId req) (lang req) (disableTranslate req) st1
            = (Some (Z.max 1 (int_of_float (inject_Z c - (now2 - ts)))),
               with_ext st1 x2)) as Hf.
    { unfold fail_cache_get. fold k. rewrite Hk, Hnow1.
      apply Qgtb_false in Hin. by rewrite Hin, Hnow2. }
    assert (truthy_int (Some (Z.max 1 (int_of_float (inject_Z c - (now2 - ts)))))
            = true) as Ht.
    { unfold truthy_int. apply negb_true_iff, Z.eqb_neq. lia. }
    destruct cached as [[|s l]|]; try discriminate; by rewrite Hf, Ht.
Qed.



Lemma force_stt_consults_caches_witness :
  let env := sim_env nothing in
  let data := [seg "hello" 0 1] in
  let hit := with_ext (cache_set env "V1" "en" false data (empty_state (at_time 0)))
               (at_time 60) in
  let tripped := with_ext (fail_cache_set env "V1" "en" false (Some 300%Z)
                             (empty_state (at_time 0))) (at_time 60) in
  transcript_with env empty_selector forced_request hit = (Returned data, hit)
  /\ transcript_with env empty_selector forced_request tripped
     = (Raised (http_exception 429
                  "Upstream rate limited recently. Please retry later."
                  [("Retry-After", "240")]), tripped).
Proof.
  intros env data hit tripped. split.
  - apply (proj1 (force_stt_consults_caches Sim env empty_selector forced_request
                    hit eq_refl) 0%Q 60%Q data (at_time 60)).
    + reflexivity.
    + discriminate.
    + reflexivity.
    + vm_compute. discriminate.
  - apply (proj2 (force_stt_consults_caches Sim env empty_selector forced_request
                    tripped eq_refl) None tripped 0%Q 300%Z 60%Q 60%Q
             (at_time 60) (at_time 60)).
    + reflexivity.
    + reflexivity.
    + reflexivity.
    + reflexivity.
    + vm_compute. discriminate.
    + reflexivity.
Defined.


(** ** End-to-end runs in the simulated world *)

(** A first request with a reachable manual track fills the success cache
    under the request key. *)
Example e2e_first :
  transcript (sim_env two_english) plain_request (empty_state (at_time 0))
  = (Returned [seg "manual" 0 1],
     {| _CACHE := {[ request_key := (0%Q, [seg "manual" 0 1]) ]};
        _FAIL_CACHE := ∅;
        ext := {| sim_clock := 0; sim_log := ["fetch English"; "list_transcripts"] |} |}).
Proof. vm_compute. reflexivity. Qed.

(** The same request 1800 seconds later is served from the cache: the log of
    collaborator calls stays empty. *)
Example e2e_repeat :
  transcript (sim_env two_english) plain_request
    {| _CACHE := {[ request_key := (0%Q, [seg "manual" 0 1]) ]};
       _FAIL_CACHE := ∅; ext := at_time 1800 |}
  = (Returned [seg "manual" 0 1],
     {| _CACHE := {[ request_key := (0%Q, [seg "manual" 0 1]) ]};
        _FAIL_CACHE := ∅; ext := at_time 1800 |}).
Proof. vm_compute. reflexivity. Qed.

(** With every fetch rate limited and STT off, the request ends in the 429
    with the 300 s cooldown after 15 fetches (the manual [en] track is tried
    for [lang] and for the first fallback code, then as last resort); half a
    second later the failure cache answers, with 299 s left. *)
Example e2e_throttled :
  let out := transcript (sim_env all_rate_limited) plain_request (empty_state (at_time 0)) in
  out.1 = Raised (http_exception 429
                   "Transcript temporarily unavailable (throttled or no captions). STT fallback may be disabled or unavailable."
                   [("Retry-After", "300")])
  /\ _FAIL_CACHE out.2 = {[ request_key := (0%Q, 300%Z) ]}
  /\ length (List.filter (String.eqb "fetch English") (sim_log (ext out.2))) = 15%nat
  /\ transcript (sim_env all_rate_limited) plain_request (with_ext out.2 (at_time (1 # 2)))
     = (Raised (http_exception 429 "Upstream rate limited recently. Please retry later."
                  [("Retry-After", "299")]),
        with_ext out.2 (at_time (1 # 2))).
Proof. vm_compute. repeat split; reflexivity. Qed.

(* ===================================================================== *)
(** * Further properties *)
(* ===================================================================== *)

(** ** RetryExecutor, for any number of attempts *)

Section RetryMore.
Context {W A : Type}.
Variable uniform : Q -> Q -> W -> Q * W.
Variable sleep : Q -> W -> W.
Variable fetch_call : M W (list A).

Lemma attempt_nonempty w v w1 :
  attempt fetch_call w = (Returned v, w1) -> v <> [].
Proof.
  unfold attempt, bind. destruct (fetch_call w) as [[d|e] w2]; [|discriminate].
  destruct d; [discriminate|]. unfold ret. by intros [= <- <-].
Qed.

Lemma retry_from_nonempty attempts bd n i w d w' :
  retry_from uniform sleep fetch_call attempts bd n i w = (Returned (Some d), w') ->
  d <> [].
Proof.
  revert i w. induction n as [|n IH]; intros i w; simpl; [discriminate|].
  destruct (attempt fetch_call w) as [[v|e] w1] eqn:Ha.
  - intros [= <- <-]. by eapply attempt_nonempty.
  - destruct ((i <? attempts - 1)%Z && transient e); [apply IH | discriminate].
Qed.

Lemma retry_from_not_none attempts bd n i w w' :
  (0 < n)%nat -> (i + Z.of_nat n = attempts)%Z ->
  retry_from uniform sleep fetch_call attempts bd n i w <> (Returned None, w').
Proof.
  revert i w. induction n as [|n IH]; intros i w Hn Hi; [lia|]. simpl.
  destruct (attempt fetch_call w) as [[v|e] w1]; [discriminate|].
  destruct (i <? attempts - 1)%Z eqn:Hlt; cbn [andb]; [|discriminate].
  destruct (transient e); [|discriminate].
  apply Z.ltb_lt in Hlt. apply IH; lia.
Qed.

End RetryMore.



(** X2. Whatever the operation does: data that [fetch_with_retry] returns is
    never empty; with [attempts >= 1] it never returns [None]; with
    [attempts <= 0] it returns [None] without calling the operation. *)
Theorem fetch_with_retry_result_shape :
  forall (W A : Type) (uniform : Q -> Q -> W -> Q * W) (sleep : Q -> W -> W)
         (fetch_call : M W (list A)) (attempts : Z) (base_delay : Q) (w : W),
  let out := fetch_with_retry uniform sleep fetch_call attempts base_delay w in
  (forall d, out.1 = Returned (Some d) -> d <> [])
  /\ ((1 <= attempts)%Z -> out.1 <> Returned None)
  /\ ((attempts <= 0)%Z -> out = (Returned None, w)).
Proof.
  intros W A uniform sleep fetch_call attempts bd w out. subst out.
  split; [|split].
  - intros d H. unfold fetch_with_retry in H.
    destruct (retry_from _ _ _ _ _ _ _ _) as [r w'] eqn:Hr. simpl in H. subst r.
    by eapply retry_from_nonempty.
  - intros Hpos H. unfold fetch_with_retry in H.
    destruct (retry_from _ _ _ _ _ _ _ _) as [r w'] eqn:Hr. simpl in H. subst r.
    revert Hr. apply retry_from_not_none; lia.
  - intros Hle. by apply fetch_with_retry_no_attempts.
Qed.

Lemma fetch_with_retry_result_shape_witness :
  (fetch_with_retry no_jitter no_sleep (scripted (A:=segment)) 5 (6 # 5)
     [Returned []; Returned []; Returned []; Returned []; Returned []]).1
  <> Returned None
  /\ fetch_with_retry no_jitter no_sleep (scripted (A:=segment)) 0 (6 # 5)
       [Returned [seg "hello" 0 1]]
     = (Returned None, [Returned [seg "hello" 0 1]]).
Proof.
  split.
  - apply (proj1 (proj2 (fetch_with_retry_result_shape _ _ no_jitter no_sleep
                           scripted 5 (6 # 5) _))). lia.
  - apply (proj2 (proj2 (fetch_with_retry_result_shape _ _ no_jitter no_sleep
                           scripted 0 (6 # 5) _))). lia.
Defined.

Section RetryTally.
Context {W A : Type}.
Variable uniform : Q -> Q -> W -> Q * W.
Variable sleep : Q -> W -> W.
Variable fetch_call : M W (list A).

Lemma attempt_tally t :
  attempt (tally_call fetch_call) t
  = (let (r, w1) := attempt fetch_call (world t) in
     (r, {| world := w1; calls := S (calls t); slept := slept t |})).
Proof.
  unfold attempt, bind, tally_call.
  destruct (fetch_call (world t)) as [[v|e] w1]; [|reflexivity].
  destruct v; reflexivity.
Qed.

Lemma backoff_tally bd i t :
  backoff (tally_uniform uniform) (tally_sleep sleep) bd i t
  = {| world := backoff uniform sleep bd i (world t);
       calls := calls t;
       slept := (bd * 2 ^ i + (uniform 0 (3 # 5) (world t)).1)%Q :: slept t |}.
Proof.
  unfold backoff, tally_uniform, tally_sleep.
  by destruct (uniform 0 (3 # 5) (world t)).
Qed.

Lemma delays_within_snoc bd i ds d :
  delays_within bd (i + 1) ds ->
  (bd * 2 ^ i <= d <= bd * 2 ^ i + (3 # 5))%Q ->
  delays_within bd i (ds ++ [d])%list.
Proof.
  intros Hds Hd. induction ds as [|x ds IH]; simpl in *.
  - rewrite Z.add_0_r. by split.
  - destruct Hds as [Hx Hrest]. split; [|by apply IH].
    rewrite length_app. simpl.
    replace (i + Z.of_nat (length ds + 1))%Z with (i + 1 + Z.of_nat (length ds))%Z
      by lia.
    exact Hx.
Qed.

(** What one run of the loop adds to the tally. *)
Lemma retry_from_tally attempts bd n i t r t' :
  (i + Z.of_nat (S n) = attempts)%Z ->
  retry_from (tally_uniform uniform) (tally_sleep sleep) (tally_call fetch_call)
    attempts bd (S n) i t = (r, t') ->
  exists (c : nat) (ds : list Q),
    (1 <= c <= S n)%nat
    /\ calls t' = (calls t + c)%nat
    /\ slept t' = (ds ++ slept t)%list
    /\ length ds = (c - 1)%nat
    /\ (uniform_in_range uniform -> delays_within bd i ds).
Proof.
  revert i t. induction n as [|n IH]; intros i t Hi.
  - cbn [retry_from]. rewrite attempt_tally.
    destruct (attempt fetch_call (world t)) as [[v|e] w1].
    + intros [= <- <-]. exists 1%nat, []. cbn. repeat split; lia.
    + replace (i <? attempts - 1)%Z with false
        by (symmetry; apply Z.ltb_ge; lia).
      cbn [andb]. intros [= <- <-]. exists 1%nat, []. cbn. repeat split; lia.
  - cbn [retry_from]. rewrite attempt_tally.
    destruct (attempt fetch_call (world t)) as [[v|e] w1].
    + intros [= <- <-]. exists 1%nat, []. cbn. repeat split; lia.
    + destruct ((i <? attempts - 1)%Z && transient e).
      * rewrite backoff_tally. intros H.
        apply IH in H as (c & ds & Hc & Hcalls & Hsl & Hlen & Hds); [|lia].
        cbn [calls slept world] in Hcalls, Hsl.
        exists (S c), (ds ++ [(bd * 2 ^ i + (uniform 0 (3 # 5) w1).1)%Q])%list.
        repeat split; try lia.
        -- by rewrite <- app_assoc.
        -- rewrite length_app. simpl. lia.
        -- intros Hu. apply delays_within_snoc; [by apply Hds|].
           destruct (Hu 0%Q (3 # 5) w1) as [Hlo Hhi]; [done|].
           set (p := (bd * 2 ^ i)%Q). set (j := (uniform 0 (3 # 5) w1).1) in *.
           split; lra.
      * intros [= <- <-]. exists 1%nat, []. cbn. repeat split; lia.
Qed.

Lemma tallied_retry_inv attempts bd w :
  (1 <= attempts)%Z ->
  let t := (tallied_retry uniform sleep fetch_call attempts bd w).2 in
  (1 <= calls t)%nat /\ (Z.of_nat (calls t) <= attempts)%Z
  /\ length (slept t) = (calls t - 1)%nat
  /\ (uniform_in_range uniform -> delays_within bd 0 (slept t)).
Proof.
  intros Hpos t. subst t. unfold tallied_retry, fetch_with_retry.
  destruct (Z.to_nat attempts) as [|n] eqn:Hn; [lia|].
  destruct (retry_from _ _ _ _ _ _ _ _) as [r t'] eqn:Hr.
  apply retry_from_tally in Hr as (c & ds & Hc & Hcalls & Hsl & Hlen & Hds); [|lia].
  cbn [snd]. cbn in Hcalls, Hsl. rewrite app_nil_r in Hsl. subst ds.
  repeat split; try lia. exact Hds.
Qed.

End RetryTally.

(** X3. With [attempts >= 1], whatever the operation does, it is called at
    least once and at most [attempts] times, and the number of sleeps is the
    number of calls minus one: every call but the last is followed by one
    back-off sleep, and there is no sleep after the last call. *)
Theorem retry_calls_and_sleeps :
  forall (W A : Type) (uniform : Q -> Q -> W -> Q * W) (sleep : Q -> W -> W)
         (fetch_call : M W (list A)) (attempts : Z) (base_delay : Q) (w : W),
  (1 <= attempts)%Z ->
  let t := (tallied_retry uniform sleep fetch_call attempts base_delay w).2 in
  (1 <= calls t)%nat /\ (Z.of_nat (calls t) <= attempts)%Z
  /\ length (slept t) = (calls t - 1)%nat.
Proof.
  intros W A uniform sleep fetch_call attempts bd w Hpos t.
  pose proof (tallied_retry_inv uniform sleep fetch_call attempts bd w Hpos) as H.
  cbv zeta in H. subst t. tauto.
Qed.

Lemma retry_calls_and_sleeps_witness :
  let t := (tallied_retry no_jitter no_sleep scripted 5 (6 # 5)
              [Raised err429; Returned []; Returned [seg "hello" 0 1]]).2 in
  (1 <= calls t)%nat /\ (Z.of_nat (calls t) <= 5)%Z
  /\ length (slept t) = (calls t - 1)%nat.
Proof.
  apply (retry_calls_and_sleeps _ _ no_jitter no_sleep scripted 5 (6 # 5)
           [Raised err429; Returned []; Returned [seg "hello" 0 1]]).
  lia.
Defined.

(** X4. With [attempts >= 1] and a random generator that honours its bounds,
    the delay slept after the attempt of index [i] lies between
    [base_delay * 2 ^ i] and [base_delay * 2 ^ i + 0.6]. *)
Theorem retry_delays_within_bounds :
  forall (W A : Type) (uniform : Q -> Q -> W -> Q * W) (sleep : Q -> W -> W)
         (fetch_call : M W (list A)) (attempts : Z) (base_delay : Q) (w : W),
  (1 <= attempts)%Z ->
  uniform_in_range uniform ->
  delays_within base_delay 0
    (slept (tallied_retry uniform sleep fetch_call attempts base_delay w).2).
Proof.
  intros W A uniform sleep fetch_call attempts bd w Hpos Hu.
  pose proof (tallied_retry_inv uniform sleep fetch_call attempts bd w Hpos) as H.
  cbv zeta in H. by apply H.
Qed.

Lemma retry_delays_within_bounds_witness :
  delays_within (6 # 5) 0
    (slept (tallied_retry no_jitter no_sleep scripted 5 (6 # 5)
              [Raised err429; Returned []; Returned [seg "hello" 0 1]]).2).
Proof.
  apply (retry_delays_within_bounds _ _ no_jitter no_sleep scripted 5 (6 # 5)).
  - lia.
  - intros a b w Hab. simpl. split; [apply Qle_refl | exact Hab].
Defined.

(** Replace each closed back-off term by its value. *)
Ltac pin_backoff :=
  repeat match goal with
  | H : context [((6 # 5) * 2 ^ ?z)%Q] |- _ =>
      let v := eval vm_compute in (Qred ((6 # 5) * 2 ^ z)) in
      let p := fresh "p" in
      let E := fresh "E" in
      set (p := ((6 # 5) * 2 ^ z)%Q) in *;
      assert (E : (p == v)%Q) by (subst p; vm_compute; reflexivity);
      clearbody p
  end.

(** X5. With the defaults and a random generator that honours its bounds,
    one call of [fetch_with_retry] sleeps 20.4 seconds in all at most. *)
Theorem retry_default_sleep_budget :
  forall (W A : Type) (uniform : Q -> Q -> W -> Q * W) (sleep : Q -> W -> W)
         (fetch_call : M W (list A)) (w : W),
  uniform_in_range uniform ->
  (total_slept (slept (tallied_retry uniform sleep fetch_call
                         default_attempts default_base_delay w).2) <= 102 # 5)%Q.
Proof.
  intros W A uniform sleep fetch_call w Hu.
  pose proof (tallied_retry_inv uniform sleep fetch_call default_attempts
                default_base_delay w ltac:(unfold default_attempts; lia))
    as (H1 & H2 & Hlen & Hds).
  specialize (Hds Hu). unfold default_attempts in *.
  destruct (slept _) as [|d1 [|d2 [|d3 [|d4 [|d5 ds]]]]];
    cbn [length] in Hlen; try lia;
    unfold default_base_delay in Hds; cbn in Hds; unfold total_slept; cbn;
    repeat match goal with H : _ /\ _ |- _ => destruct H end;
    pin_backoff; lra.
Qed.

Lemma retry_default_sleep_budget_witness :
  (total_slept (slept (tallied_retry no_jitter no_sleep (scripted (A:=segment))
                         default_attempts default_base_delay
                         [Raised err429; Raised err429; Raised err429;
                          Raised err429; Raised err429]).2) <= 102 # 5)%Q.
Proof.
  apply (retry_default_sleep_budget _ _ no_jitter no_sleep scripted).
  intros a b w Hab. simpl. split; [apply Qle_refl | exact Hab].
Defined.

(** ** Error classification *)

Lemma prefix_app_l (a b h : string) :
  String.prefix (a ++ b) h = true -> String.prefix a h = true.
Proof.
  revert h. induction a as [|c a IH]; intros h.
  - by destruct h.
  - change (String.append (String c a) b) with (String c (String.append a b)).
    destruct h as [|c' h]; [done|]. cbn [String.prefix].
    destruct (Ascii.ascii_dec c c'); [apply IH | done].
Qed.

Lemma contains_app_l (a b h : string) :
  Str.contains (a ++ b) h = true -> Str.contains a h = true.
Proof.
  induction h as [|c h IH]; cbn [Str.contains]; rewrite !orb_true_iff.
  - intros [H | H]; [left; exact (prefix_app_l a b _ H) | done].
  - intros [H | H]; [left; exact (prefix_app_l a b _ H) | right; by apply IH].
Qed.

(** X6. An exception is retried exactly when its lower-cased message
    contains one of [429], [too many requests], [no element found] and
    [empty]: the class of the exception plays no part, and the separate test
    for [empty transcript] never changes the outcome. *)
Theorem transient_by_keywords :
  forall (cls : exn_class) (msg : string),
  transient (Exn cls msg)
  = (Str.contains "429" (Str.lower msg)
     || Str.contains "too many requests" (Str.lower msg)
     || Str.contains "no element found" (Str.lower msg)
     || Str.contains "empty" (Str.lower msg)).
Proof.
  intros cls msg. unfold transient, is_rate_limit, is_empty_xml. cbn [exn_msg].
  destruct (Str.contains "empty transcript" (Str.lower msg)) eqn:H.
  - apply (contains_app_l "empty" " transcript") in H. rewrite H.
    by rewrite !orb_true_r.
  - by rewrite orb_false_r, orb_assoc.
Qed.

(** ** The caches, beyond one key and one write *)

Lemma int_of_float_floor (q : Q) : (0 <= q)%Q -> int_of_float q = Qfloor q.
Proof.
  destruct q as [a b]. unfold Qle, int_of_float, Qfloor. simpl.
  rewrite Z.mul_1_r. intros Ha. apply Z.quot_div_nonneg; lia.
Qed.

Lemma int_of_float_ceiling (q : Q) : (q <= 0)%Q -> int_of_float q = Qceiling q.
Proof.
  destruct q as [a b]. unfold Qle, int_of_float, Qceiling, Qfloor. simpl.
  rewrite Z.mul_1_r. intros Ha.
  rewrite <- (Z.opp_involutive a) at 1. rewrite Z.quot_opp_l by lia.
  f_equal. apply Z.quot_div_nonneg; lia.
Qed.

(** Truncation towards zero is monotone. *)
Lemma int_of_float_mono (p q : Q) : (p <= q)%Q -> (int_of_float p <= int_of_float q)%Z.
Proof.
  intros Hpq.
  destruct (Qlt_le_dec p 0) as [Hp | Hp]; destruct (Qlt_le_dec q 0) as [Hq | Hq].
  - rewrite !int_of_float_ceiling by lra. by apply Qceiling_resp_le.
  - rewrite (int_of_float_ceiling p), (int_of_float_floor q) by lra.
    transitivity 0%Z.
    + change 0%Z with (Qceiling 0). apply Qceiling_resp_le. lra.
    + change 0%Z with (Qfloor 0). by apply Qfloor_resp_le.
  - lra.
  - rewrite !int_of_float_floor by lra. by apply Qfloor_resp_le.
Qed.

Section CacheMore.
Context {X : Type} (env : Env X).

(** X7. The four cache operations on one key leave every entry under any
    other key as it was, in both dictionaries; the success-cache operations
    leave the failure cache alone and the failure-cache operations leave the
    success cache alone. *)
Theorem cache_operations_frame :
  forall (video_id lang : string) (disable_translate : bool) (k' : key)
         (data : list segment) (c : option Z) (st : State X),
  k' <> (video_id, lang, disable_translate) ->
  let g := (cache_get env video_id lang disable_translate st).2 in
  let s := cache_set env video_id lang disable_translate data st in
  let fg := (fail_cache_get env video_id lang disable_translate st).2 in
  let fs := fail_cache_set env video_id lang disable_translate c st in
  (_CACHE g !! k' = _CACHE st !! k' /\ _FAIL_CACHE g = _FAIL_CACHE st)
  /\ (_CACHE s !! k' = _CACHE st !! k' /\ _FAIL_CACHE s = _FAIL_CACHE st)
  /\ (_FAIL_CACHE fg !! k' = _FAIL_CACHE st !! k' /\ _CACHE fg = _CACHE st)
  /\ (_FAIL_CACHE fs !! k' = _FAIL_CACHE st !! k' /\ _CACHE fs = _CACHE st).
Proof.
  intros v l d k' data c st Hk. cbv zeta. repeat split.
  - unfold cache_get. destruct (_CACHE st !! (v, l, d)) as [[ts dat]|]; [|done].
    destruct (time_time env (ext st)) as [now x1].
    destruct (Qgtb _ _); cbn; [by rewrite lookup_delete_ne | done].
  - unfold cache_get. destruct (_CACHE st !! (v, l, d)) as [[ts dat]|]; [|done].
    destruct (time_time env (ext st)) as [now x1]. by destruct (Qgtb _ _).
  - unfold cache_set. destruct (time_time env (ext st)) as [now x1]. cbn.
    by rewrite lookup_insert_ne.
  - unfold cache_set. by destruct (time_time env (ext st)).
  - unfold fail_cache_get.
    destruct (_FAIL_CACHE st !! (v, l, d)) as [[ts rs]|]; [|done].
    destruct (time_time env (ext st)) as [now x1].
    destruct (Qgtb _ _); cbn; [by rewrite lookup_delete_ne|].
    by destruct (time_time env x1).
  - unfold fail_cache_get.
    destruct (_FAIL_CACHE st !! (v, l, d)) as [[ts rs]|]; [|done].
    destruct (time_time env (ext st)) as [now x1].
    destruct (Qgtb _ _); cbn; [done|]. by destruct (time_time env x1).
  - unfold fail_cache_set. destruct (time_time env (ext st)) as [now x1]. cbn.
    by rewrite lookup_insert_ne.
  - unfold fail_cache_set. by destruct (time_time env (ext st)).
Qed.

(** X8. A second [cache_set] or [fail_cache_set] under the same key
    overwrites the first: the dictionary is what the second write alone
    would have made of the original one. *)
Theorem cache_last_write_wins :
  forall (video_id lang : string) (disable_translate : bool)
         (v1 v2 : list segment) (c1 c2 : option Z) (st : State X)
         (t1 t2 : Q) (x1 x2 : X),
  let k := (video_id, lang, disable_translate) in
  time_time env (ext st) = (t1, x1) ->
  time_time env x1 = (t2, x2) ->
  _CACHE (cache_set env video_id lang disable_translate v2
            (cache_set env video_id lang disable_translate v1 st))
  = <[k := (t2, v2)]> (_CACHE st)
  /\ _FAIL_CACHE (fail_cache_set env video_id lang disable_translate c2
                    (fail_cache_set env video_id lang disable_translate c1 st))
     = <[k := (t2, or_default c2)]> (_FAIL_CACHE st).
Proof.
  intros v l d v1 v2 c1 c2 st t1 t2 x1 x2 k H1 H2.
  unfold cache_set, fail_cache_set. rewrite H1. cbn. rewrite H2. cbn.
  split; apply insert_insert_eq.
Qed.

(** X9. A read that finds an entry expired purges it, and the next read of
    the key finds nothing, returns [None], changes nothing and does not
    even read the clock; the same holds for both caches. *)
Theorem expired_entry_is_purged_once :
  forall (video_id lang : string) (disable_translate : bool) (st : State X)
         (now : Q) (x1 : X),
  let k := (video_id, lang, disable_translate) in
  time_time env (ext st) = (now, x1) ->
  (forall ts data,
      _CACHE st !! k = Some (ts, data) -> (1800 < now - ts)%Q ->
      exists st1,
        cache_get env video_id lang disable_translate st = (None, st1)
        /\ cache_get env video_id lang disable_translate st1 = (None, st1))
  /\ (forall ts c,
      _FAIL_CACHE st !! k = Some (ts, c) -> (inject_Z c < now - ts)%Q ->
      exists st1,
        fail_cache_get env video_id lang disable_translate st = (None, st1)
        /\ fail_cache_get env video_id lang disable_translate st1 = (None, st1)).
Proof.
  intros v l d st now x1 k Hnow. split.
  - intros ts data Hk Hexp. apply Qgtb_true in Hexp.
    eexists. split.
    + unfold cache_get. fold k. rewrite Hk, Hnow.
      change (inject_Z CACHE_TTL_SECONDS) with 1800%Q. by rewrite Hexp.
    + unfold cache_get. cbn [_CACHE]. fold k. by rewrite lookup_delete_eq.
  - intros ts c Hk Hexp. apply Qgtb_true in Hexp.
    eexists. split.
    + unfold fail_cache_get. fold k. by rewrite Hk, Hnow, Hexp.
    + unfold fail_cache_get. cbn [_FAIL_CACHE]. fold k. by rewrite lookup_delete_eq.
Qed.

(** X10. [fail_cache_set] without a cooldown, or with the cooldown [0],
    stores the default of 300 seconds; a negative cooldown is stored as it
    is, and an entry with a negative cooldown is expired at every clock
    reading that is not before its time stamp. *)
Theorem fail_cache_defaults_and_negatives :
  forall (video_id lang : string) (disable_translate : bool) (st : State X)
         (t0 : Q) (x0 : X),
  let k := (video_id, lang, disable_translate) in
  time_time env (ext st) = (t0, x0) ->
  _FAIL_CACHE (fail_cache_set env video_id lang disable_translate None st) !! k
  = Some (t0, 300%Z)
  /\ _FAIL_CACHE (fail_cache_set env video_id lang disable_translate (Some 0%Z) st) !! k
     = Some (t0, 300%Z)
  /\ (forall (c : Z) (st' : State X) (now : Q) (x1 : X),
      (c < 0)%Z ->
      _FAIL_CACHE (fail_cache_set env video_id lang disable_translate (Some c) st) !! k
      = Some (t0, c)
      /\ (_FAIL_CACHE st' !! k = Some (t0, c) ->
          time_time env (ext st') = (now, x1) -> (t0 <= now)%Q ->
          (fail_cache_get env video_id lang disable_translate st').1 = None)).
Proof.
  intros v l d st t0 x0 k Ht0.
  unfold fail_cache_set. rewrite Ht0. cbn [_FAIL_CACHE]. fold k.
  rewrite !lookup_insert_eq. split; [done | split; [done|]].
  intros c st' now x1 Hc. split.
  - rewrite lookup_insert_eq. destruct c; [lia | lia | done].
  - intros Hk Hnow Hle. unfold fail_cache_get. fold k. rewrite Hk, Hnow.
    assert (Qgtb (now - t0) (inject_Z c) = true) as ->; [|done].
    apply Qgtb_true.
    assert (inject_Z c < 0)%Q by (unfold Qlt; simpl; lia). lra.
Qed.

(** X11. While a failure entry is within its cooldown, the remaining time
    that [fail_cache_get] reports never grows with the clock: of two reads
    within the cooldown, the one whose second clock reading is later reports
    a remaining value that is no larger. *)
Theorem remaining_never_grows :
  forall (video_id lang : string) (disable_translate : bool) (st st' : State X)
         (ts : Q) (c : Z) (now1 now2 now1' now2' : Q) (x1 x2 x1' x2' : X),
  let k := (video_id, lang, disable_translate) in
  _FAIL_CACHE st !! k = Some (ts, c) ->
  _FAIL_CACHE st' !! k = Some (ts, c) ->
  time_time env (ext st) = (now1, x1) -> time_time env x1 = (now2, x2) ->
  time_time env (ext st') = (now1', x1') -> time_time env x1' = (now2', x2') ->
  (now1 - ts <= inject_Z c)%Q -> (now1' - ts <= inject_Z c)%Q ->
  (now2 <= now2')%Q ->
  exists r r' : Z,
    (fail_cache_get env video_id lang disable_translate st).1 = Some r
    /\ (fail_cache_get env video_id lang disable_translate st').1 = Some r'
    /\ (r' <= r)%Z.
Proof.
  intros v l d st st' ts c now1 now2 now1' now2' x1 x2 x1' x2' k
    Hk Hk' H1 H2 H1' H2' Hin Hin' Hle.
  unfold fail_cache_get. fold k. rewrite Hk, Hk', H1, H1'.
  apply Qgtb_false in Hin, Hin'. rewrite Hin, Hin', H2, H2'. cbn.
  eexists _, _. split; [done | split; [done|]].
  apply Z.max_le_compat_l. apply int_of_float_mono. lra.
Qed.

End CacheMore.

Lemma cache_operations_frame_witness :
  let env := sim_env nothing in
  let st := cache_set env "V2" "de" true [seg "hallo" 0 1]
              (fail_cache_set env "V2" "de" true (Some 60%Z) (empty_state (at_time 0))) in
  let st' := cache_set env "V1" "en" false [seg "hello" 0 1]
               (fail_cache_set env "V1" "en" false None st) in
  _CACHE st' !! ("V2", "de", true) = Some (0%Q, [seg "hallo" 0 1])
  /\ _FAIL_CACHE st' !! ("V2", "de", true) = Some (0%Q, 60%Z).
Proof.
  intros env st st'.
  pose proof (cache_operations_frame env "V1" "en" false ("V2", "de", true)
                [seg "hello" 0 1] None
                (fail_cache_set env "V1" "en" false None st)
                ltac:(discriminate)) as (_ & [Hs _] & _).
  pose proof (cache_operations_frame env "V1" "en" false ("V2", "de", true)
                [] None st ltac:(discriminate)) as (_ & _ & _ & [Hf _]).
  split.
  - etransitivity; [exact Hs|]. vm_compute. reflexivity.
  - etransitivity; [|exact (eq_trans Hf eq_refl)]. vm_compute. reflexivity.
Defined.

Lemma cache_last_write_wins_witness :
  let env := sim_env nothing in
  let st := empty_state (at_time 7) in
  _CACHE (cache_set env "V1" "en" false [seg "new" 0 1]
            (cache_set env "V1" "en" false [seg "old" 0 1] st))
  = <[("V1", "en", false) := (7%Q, [seg "new" 0 1])]> ∅
  /\ _FAIL_CACHE (fail_cache_set env "V1" "en" false (Some 120%Z)
                    (fail_cache_set env "V1" "en" false None st))
     = <[("V1", "en", false) := (7%Q, 120%Z)]> ∅.
Proof.
  intros env st.
  apply (cache_last_write_wins env "V1" "en" false [seg "old" 0 1] [seg "new" 0 1]
           None (Some 120%Z) st 7%Q 7%Q (at_time 7) (at_time 7) eq_refl eq_refl).
Defined.

Lemma expired_entry_is_purged_once_witness :
  let env := sim_env nothing in
  let st := with_ext (cache_set env "V1" "en" false [seg "hello" 0 1]
                        (empty_state (at_time 0))) (at_time 1801) in
  exists st1,
    cache_get env "V1" "en" false st = (None, st1)
    /\ cache_get env "V1" "en" false st1 = (None, st1).
Proof.
  intros env st.
  apply (proj1 (expired_entry_is_purged_once env "V1" "en" false st 1801%Q
                  (at_time 1801) eq_refl) 0%Q [seg "hello" 0 1]).
  - reflexivity.
  - vm_compute. reflexivity.
Defined.

Lemma fail_cache_defaults_and_negatives_witness :
  let env := sim_env nothing in
  let st := empty_state (at_time 5) in
  _FAIL_CACHE (fail_cache_set env "V1" "en" false None st) !! ("V1", "en", false)
  = Some (5%Q, 300%Z)
  /\ (fail_cache_get env "V1" "en" false
        (fail_cache_set env "V1" "en" false (Some (-3)%Z) st)).1 = None.
Proof.
  intros env st. split.
  - apply (proj1 (fail_cache_defaults_and_negatives env "V1" "en" false st 5%Q
                    (at_time 5) eq_refl)).
  - apply (proj2 (proj2 (fail_cache_defaults_and_negatives env "V1" "en" false st 5%Q
                           (at_time 5) eq_refl))
             (-3)%Z (fail_cache_set env "V1" "en" false (Some (-3)%Z) st) 5%Q
             (at_time 5) ltac:(lia)).
    + reflexivity.
    + reflexivity.
    + vm_compute. discriminate.
Defined.

Lemma remaining_never_grows_witness :
  let env := sim_env nothing in
  let st0 := fail_cache_set env "V1" "en" false (Some 120%Z) (empty_state (at_time 0)) in
  exists r r' : Z,
    (fail_cache_get env "V1" "en" false (with_ext st0 (at_time 10))).1 = Some r
    /\ (fail_cache_get env "V1" "en" false (with_ext st0 (at_time (41 # 2)))).1 = Some r'
    /\ (r' <= r)%Z.
Proof.
  intros env st0.
  apply (remaining_never_grows env "V1" "en" false
           (with_ext st0 (at_time 10)) (with_ext st0 (at_time (41 # 2)))
           0%Q 120%Z 10%Q 10%Q (41 # 2) (41 # 2)
           (at_time 10) (at_time 10) (at_time (41 # 2)) (at_time (41 # 2))
           eq_refl eq_refl eq_refl eq_refl eq_refl eq_refl).
  - vm_compute. discriminate.
  - vm_compute. discriminate.
  - vm_compute. discriminate.
Defined.

(** ** DurationNormalizer, on any input *)

Lemma max0_nonneg (q : Q) : (0 <= max0 q)%Q.
Proof.
  unfold max0. destruct (Qle_bool q 0) eqn:H; [apply Qle_refl|].
  apply Qlt_le_weak, Qnot_le_lt. intros Hle. apply Qle_bool_iff in Hle. congruence.
Qed.

Lemma filled_nonneg segments n i x : (0 <= filled segments n i x)%Q.
Proof.
  unfold filled. destruct (i <? n - 1)%nat.
  - destruct (segments !! (i + 1)%nat); [apply max0_nonneg | apply Qle_refl].
  - destruct (2 <=? n)%nat; [|apply Qle_refl].
    destruct (segments !! (i - 1)%nat); [apply max0_nonneg | apply Qle_refl].
Qed.

Lemma normalize_at_start segments n i s :
  normalize_at segments n i s !! "start"
  = Some (PyFloat (_safe_float (dict_get s "start" (PyFloat 0)) 0)).
Proof.
  unfold normalize_at. rewrite lookup_insert_ne by done. apply lookup_insert_eq.
Qed.

Lemma normalize_at_duration segments n i s :
  exists d q,
    normalize_at segments n i s !! "duration" = Some d
    /\ py_float d = Some q /\ (0 <= q)%Q.
Proof.
  unfold normalize_at. rewrite lookup_insert_eq.
  destruct (needs_fill (dict_get s "duration" (PyFloat 0))) eqn:Hn.
  - eexists _, _. split; [done|]. split; [done | apply filled_nonneg].
  - apply needs_fill_false_iff in Hn as (d & q & Hd & Hq & Hpos).
    exists d, q. unfold dict_get. rewrite Hd. simpl.
    split; [done|]. split; [done | by apply Qlt_le_weak].
Qed.

(** X12. Whatever the input, every segment that [_normalize_durations]
    puts out carries a float under [start], and under [duration] a value
    that [float()] accepts and that is not negative (it may be zero). *)
Theorem normalized_segments_are_well_formed :
  forall (segments : list segment) (s' : segment),
  s' ∈ _normalize_durations segments ->
  (exists x, s' !! "start" = Some (PyFloat x))
  /\ (exists d q, s' !! "duration" = Some d /\ py_float d = Some q /\ (0 <= q)%Q).
Proof.
  intros segments s' Hin.
  apply list_elem_of_lookup in Hin as [i Hi].
  rewrite normalize_durations_lookup in Hi.
  destruct (segments !! i) as [s|]; [|discriminate]. injection Hi as <-.
  split; [eexists; apply normalize_at_start | apply normalize_at_duration].
Qed.

Lemma normalized_segments_are_well_formed_witness :
  let s' := seg "x" 0 0 in
  (exists x, s' !! "start" = Some (PyFloat x))
  /\ (exists d q, s' !! "duration" = Some d /\ py_float d = Some q /\ (0 <= q)%Q).
Proof.
  intros s'.
  apply (normalized_segments_are_well_formed [ ({["text" := py_str "x"]} : segment) ] s').
  vm_compute. apply list_elem_of_here.
Defined.

(** [filled] looks at the list only through the starts of the neighbours. *)
Lemma filled_ext (l1 l2 : list segment) n i x :
  (forall j, (fun s : segment => s !! "start") <$> l1 !! j
             = (fun s : segment => s !! "start") <$> l2 !! j) ->
  filled l1 n i x = filled l2 n i x.
Proof.
  intros H. unfold filled.
  pose proof (H (i + 1)%nat) as Hn. pose proof (H (i - 1)%nat) as Hp.
  destruct (i <? n - 1)%nat.
  - destruct (l1 !! (i + 1)%nat), (l2 !! (i + 1)%nat); simpl in Hn; try done.
    unfold dict_get. by injection Hn as ->.
  - destruct (2 <=? n)%nat; [|done].
    destruct (l1 !! (i - 1)%nat), (l2 !! (i - 1)%nat); simpl in Hp; try done.
    unfold dict_get. by injection Hp as ->.
Qed.

Lemma normalize_keeps_float_starts (segments : list segment) :
  (forall s, s ∈ segments -> exists x, float_start s x) ->
  forall j, (fun s : segment => s !! "start") <$> _normalize_durations segments !! j
            = (fun s : segment => s !! "start") <$> segments !! j.
Proof.
  intros Hst j. rewrite normalize_durations_lookup.
  destruct (segments !! j) as [s|] eqn:Hj; [|done]. simpl. f_equal.
  destruct (Hst s) as [x Hx]; [by eapply list_elem_of_lookup_2|].
  rewrite normalize_at_start. unfold dict_get. by rewrite Hx.
Qed.

(** X13. On segments whose starts are floats, [_normalize_durations] is
    idempotent: normalising its own output changes nothing. *)
Theorem normalize_durations_idempotent :
  forall segments : list segment,
  (forall s, s ∈ segments -> exists x, float_start s x) ->
  _normalize_durations (_normalize_durations segments)
  = _normalize_durations segments.
Proof.
  intros segments Hst. apply list_eq. intros i.
  rewrite (normalize_durations_lookup (_normalize_durations segments)).
  rewrite normalize_durations_lookup.
  assert (Hlen : length (_normalize_durations segments) = length segments).
  { destruct segments; [done | apply length_imap]. }
  rewrite Hlen.
  destruct (segments !! i) as [s|] eqn:Hi; [|done]. simpl. f_equal.
  destruct (Hst s) as [x Hx]; [by eapply list_elem_of_lookup_2|].
  set (n := length segments).
  destruct (needs_fill (dict_get s "duration" (PyFloat 0))) eqn:Hn.
  - apply needs_fill_true_iff in Hn.
    rewrite (normalize_at_fill segments n i s x Hx Hn).
    set (f := filled segments n i x).
    assert (Hx1 : float_start (<["duration" := PyFloat f]> s) x).
    { unfold float_start. by rewrite lookup_insert_ne. }
    destruct (Qlt_le_dec 0 f) as [Hpos | Hzero].
    + apply (normalize_at_valid _ _ _ _ x Hx1).
      exists (PyFloat f), f. by rewrite lookup_insert_eq.
    + rewrite (normalize_at_fill _ n i _ x Hx1).
      * rewrite (filled_ext _ segments n i x (normalize_keeps_float_starts _ Hst)).
        fold f. apply insert_insert_eq.
      * intros (d & q & Hd & Hq & Hq0). rewrite lookup_insert_eq in Hd.
        injection Hd as <-. injection Hq as <-. lra.
  - apply needs_fill_false_iff in Hn.
    rewrite (normalize_at_valid segments n i s x Hx Hn).
    by apply (normalize_at_valid _ _ _ _ x).
Qed.

Lemma normalize_durations_idempotent_witness :
  let l := [seg "a" 0 (-1); seg "b" 5 2; seg "c" 5 0; seg "d" 10 0] in
  _normalize_durations (_normalize_durations l) = _normalize_durations l.
Proof.
  intros l. apply (normalize_durations_idempotent l).
  intros s Hs. unfold l in Hs.
  repeat (apply elem_of_cons in Hs as [-> | Hs]; [eexists; reflexivity|]).
  by apply elem_of_nil in Hs.
Defined.

Lemma round_half_even_nonpos (q : Q) : (q <= 0)%Q -> (round_half_even q <= 0)%Z.
Proof.
  intros Hq. unfold round_half_even.
  assert (Hf : (Qfloor q <= 0)%Z).
  { change 0%Z with (Qfloor 0). by apply Qfloor_resp_le. }
  destruct (Z.eq_dec (Qfloor q) 0%Z) as [H0 | Hne].
  - rewrite H0. pose proof (Qfloor_le q) as Hle. rewrite H0 in Hle.
    assert ((q - inject_Z 0 ?= 1 # 2)%Q = Lt) as ->; [|done].
    apply (proj1 (Qlt_alt _ _)). change (inject_Z 0) with 0%Q in *. lra.
  - destruct (q - inject_Z (Qfloor q) ?= 1 # 2)%Q; [|lia|lia].
    destruct (Z.even (Qfloor q)); lia.
Qed.

Lemma max0_round3_nonpos (q : Q) : (q <= 0)%Q -> max0 (round3 q) = 0%Q.
Proof.
  intros Hq. unfold max0.
  assert (Qle_bool (round3 q) 0 = true) as ->; [|done].
  apply Qle_bool_iff. unfold round3. rewrite Qred_correct.
  pose proof (round_half_even_nonpos (q * 1000) ltac:(lra)) as H.
  assert (inject_Z (round_half_even (q * 1000)) <= 0)%Q
    by (unfold Qle; simpl; lia).
  apply Qle_shift_div_r; [reflexivity | lra].
Qed.

(** X14. A segment that needs a duration and is not the last one gets the
    duration [0] when the next segment has no start that [float()] accepts,
    and also when the next start is not later than its own: a filled
    duration is never negative. *)
Theorem fill_clamps_to_zero :
  forall (segments : list segment) (i : nat) (s nxt : segment) (x : Q),
  segments !! i = Some s -> segments !! S i = Some nxt ->
  float_start s x -> ~ valid_positive_duration s ->
  ((forall v, nxt !! "start" = Some v -> py_float v = None) ->
     _normalize_durations segments !! i = Some (<["duration" := PyFloat 0]> s))
  /\ (forall y, float_start nxt y -> (y <= x)%Q ->
     _normalize_durations segments !! i = Some (<["duration" := PyFloat 0]> s)).
Proof.
  intros segments i s nxt x Hi Hn Hx Hv.
  assert (Hfill : _normalize_durations segments !! i
                  = Some (<["duration" := PyFloat
                       (max0 (round3 (_safe_float (dict_get nxt "start" (PyFloat x)) x - x)))]> s)).
  { rewrite normalize_durations_lookup, Hi. simpl.
    rewrite (normalize_at_fill _ _ _ _ x) by done.
    unfold filled. apply lookup_lt_Some in Hn as Hlt.
    replace (i <? length segments - 1)%nat with true
      by (symmetry; apply Nat.ltb_lt; lia).
    replace (i + 1)%nat with (S i) by lia. by rewrite Hn. }
  rewrite Hfill. split.
  - intros Hbad. do 3 f_equal. apply max0_round3_nonpos.
    unfold dict_get, _safe_float.
    destruct (nxt !! "start") as [v|] eqn:Hs; simpl.
    + rewrite (Hbad v eq_refl). simpl. lra.
    + lra.
  - intros y Hy Hle. do 3 f_equal. apply max0_round3_nonpos.
    unfold dict_get, _safe_float. rewrite Hy. simpl. lra.
Qed.

Lemma fill_clamps_to_zero_witness :
  let a := seg "a" 7 0 in
  let no_start : segment := {["text" := py_str "b"]} in
  _normalize_durations [a; no_start] !! 0%nat = Some a
  /\ _normalize_durations [a; seg "b" 3 1] !! 0%nat = Some a.
Proof.
  intros a no_start.
  assert (Hv : ~ valid_positive_duration a).
  { intros (d & q & Hd & Hq & Hpos). vm_compute in Hd. injection Hd as <-.
    injection Hq as <-. vm_compute in Hpos. discriminate. }
  split.
  - etransitivity.
    + apply (proj1 (fill_clamps_to_zero [a; no_start] 0 a no_start 7%Q
                      eq_refl eq_refl eq_refl Hv)).
      intros v Hs. vm_compute in Hs. discriminate.
    + vm_compute. reflexivity.
  - etransitivity.
    + apply (proj2 (fill_clamps_to_zero [a; seg "b" 3 1] 0 a (seg "b" 3 1) 7%Q
                      eq_refl eq_refl eq_refl Hv) 3%Q eq_refl).
      vm_compute. discriminate.
    + vm_compute. reflexivity.
Defined.

(** ** TranscriptSourceSelector, whatever the collaborators do *)

Lemma project_one_canonical s s' : project_one s = Returned s' -> canonical s'.
Proof.
  unfold project_one, subscript.
  destruct (s !! "text"); [|discriminate].
  destruct (s !! "start"); [|discriminate].
  destruct (s !! "duration"); [|discriminate].
  intros [= <-]. unfold canonical.
  rewrite !dom_insert_L, dom_singleton_L. set_solver.
Qed.

Lemma project_canonical data segs :
  project data = Returned segs -> Forall canonical segs.
Proof.
  revert segs. induction data as [|s data IH]; intros segs; simpl.
  - intros [= <-]. constructor.
  - destruct (project_one s) as [s'|] eqn:H1; [|discriminate].
    destruct (project data) as [rest|]; [|discriminate].
    intros [= <-]. constructor; [by eapply project_one_canonical | by apply IH].
Qed.

Lemma project_length data segs : project data = Returned segs -> length segs = length data.
Proof.
  revert segs. induction data as [|s data IH]; intros segs; simpl.
  - by intros [= <-].
  - destruct (project_one s); [|discriminate].
    destruct (project data) as [rest|]; [|discriminate].
    intros [= <-]. simpl. f_equal. by apply IH.
Qed.

Section Combinators.
Context {W B : Type} (P : B -> Prop).

Lemma returns_only_ret_none : returns_only P (ret (W:=W) None).
Proof. intros w w' b. unfold ret. discriminate. Qed.

Lemma returns_only_try_except (m : M W (option B)) h :
  returns_only P m -> (forall e, returns_only P (h e)) ->
  returns_only P (try_except m h).
Proof.
  intros Hm Hh w w' b. unfold try_except.
  destruct (m w) as [[r|e] w1] eqn:H.
  - intros [= -> <-]. by eapply Hm.
  - apply Hh.
Qed.

Lemma returns_only_for_return {A} (xs : list A) (body : A -> M W (option B)) :
  (forall a, returns_only P (body a)) -> returns_only P (for_return xs body).
Proof.
  intros Hb. induction xs as [|a xs IH]; intros w w' b; simpl.
  - unfold ret. discriminate.
  - unfold bind. destruct (body a w) as [[[r|]|e] w1] eqn:H.
    + unfold ret. intros [= <- <-]. by eapply Hb.
    + apply IH.
    + discriminate.
Qed.

Lemma returns_only_or_next (m k : M W (option B)) :
  returns_only P m -> returns_only P k -> returns_only P (or_next m k).
Proof.
  intros Hm Hk w w' b. unfold or_next, bind.
  destruct (m w) as [[[r|]|e] w1] eqn:H.
  - unfold ret. intros [= <- <-]. by eapply Hm.
  - apply Hk.
  - discriminate.
Qed.

End Combinators.

Section SelectorMore.
Context {X : Type} (env : Env X).

Lemma fetch_and_return_canonical tr :
  returns_only (Forall canonical) (fetch_and_return env tr).
Proof.
  intros x x' segs. unfold fetch_and_return, bind.
  destruct (retry env (fetch env tr) x) as [[data|e] x1]; [|discriminate].
  unfold project_opt. destruct data as [d|]; [|discriminate].
  destruct (project d) as [s|] eqn:Hp; [|discriminate].
  unfold ret. intros [= <- <-]. by eapply project_canonical.
Qed.

Lemma fetch_and_return_nonempty tr :
  returns_only (fun segs : list segment => segs <> []) (fetch_and_return env tr).
Proof.
  intros x x' segs. unfold fetch_and_return, bind.
  destruct (retry env (fetch env tr) x) as [[data|e] x1] eqn:Hr; [|discriminate].
  unfold project_opt. destruct data as [d|]; [|discriminate].
  destruct (project d) as [s|] eqn:Hp; [|discriminate].
  unfold ret. intros [= <- <-].
  unfold retry, fetch_with_retry in Hr. apply retry_from_nonempty in Hr.
  apply project_length in Hp. destruct s, d; simpl in *; congruence.
Qed.

Lemma direct_canonical video_id langs :
  returns_only (Forall canonical)
    (do data <- get_transcript env video_id langs;
     do segs <- pure_outcome (project data);
     ret (Some segs))%m.
Proof.
  intros x x' segs. unfold bind, pure_outcome.
  destruct (get_transcript env video_id langs x) as [[data|e] x1]; [|discriminate].
  destruct (project data) as [s|] eqn:Hp; [|discriminate].
  unfold ret. intros [= <- <-]. by eapply project_canonical.
Qed.

(** A property of every list that the retried fetches and the direct fetch
    return is a property of every list the selector returns. *)
Lemma selector_returns_only (P : list segment -> Prop) video_id lang disable_translate :
  (forall tr, returns_only P (fetch_and_return env tr)) ->
  (forall langs, returns_only P
     (do data <- get_transcript env video_id langs;
      do segs <- pure_outcome (project data);
      ret (Some segs))%m) ->
  returns_only P (fetch_transcript_segments env video_id lang disable_translate).
Proof.
  intros Hfetch Hdirect x x' segs. unfold fetch_transcript_segments.
  assert (Hnone : forall e : exn, returns_only (W:=X) P (ret None))
    by (intros _; apply returns_only_ret_none).
  assert (Hfr : forall tr, returns_only P
                  (try_except (fetch_and_return env tr) (fun _ => ret None))).
  { intros tr. apply returns_only_try_except; [apply Hfetch | exact Hnone]. }
  destruct (supports_listing env x); cbn [negb].
  - apply (returns_only_try_except P).
    + intros w w' b. unfold bind at 1.
      destruct (list_transcripts env video_id w) as [[list_obj|e] w1];
        [|discriminate].
      revert w1 w' b.
      apply returns_only_or_next; [|apply returns_only_or_next;
        [|apply returns_only_or_next; [|apply returns_only_or_next;
          [|apply returns_only_or_next]]]].
      * unfold manual_tier. apply returns_only_for_return. intros l.
        apply returns_only_try_except; [|exact Hnone].
        intros w2 w3 b. unfold bind, pure_outcome.
        destruct (find_manually_created_transcript list_obj [l]); [|discriminate].
        apply Hfetch.
      * unfold translate_tier. destruct (negb disable_translate);
          [|apply returns_only_ret_none].
        apply returns_only_for_return. intros tr. unfold translate_one.
        apply returns_only_try_except; [|exact Hnone].
        destruct (is_translatable tr); [|apply returns_only_ret_none].
        destruct (String.eqb _ _); [apply returns_only_ret_none|].
        intros w2 w3 b. unfold bind at 1.
        destruct (translate env tr _ w2) as [[t|e] w4]; [|discriminate].
        revert w4 w3 b. apply returns_only_try_except; [apply Hfetch|].
        intros _. apply Hfr.
      * unfold generated_tier. apply returns_only_for_return. intros l.
        apply returns_only_try_except; [|exact Hnone].
        intros w2 w3 b. unfold bind, pure_outcome.
        destruct (find_generated_transcript list_obj [l]); [|discriminate].
        apply Hfetch.
      * unfold auto_tier. destruct (String.eqb _ _); [|apply returns_only_ret_none].
        apply returns_only_or_next; apply returns_only_for_return; intros tr;
          (apply returns_only_try_except; [|exact Hnone]);
          destruct (is_generated tr); cbn [negb];
          first [apply returns_only_ret_none | apply Hfetch].
      * unfold last_resort_tier. apply returns_only_for_return. intros tr. apply Hfr.
      * unfold direct_tier.
        apply returns_only_try_except; [apply Hdirect | exact Hnone].
    + intros e. destruct (exn_cls e); apply returns_only_ret_none.
  - apply (returns_only_for_return P). intros langs.
    apply returns_only_try_except; [apply Hdirect | exact Hnone].
Qed.

End SelectorMore.

(** X15. [fetch_transcript_segments] never raises: whatever its
    collaborators return or raise, it returns a list or [None]. *)
Theorem selector_never_raises :
  forall (X : Type) (env : Env X) (video_id lang : string)
         (disable_translate : bool) (x : X),
  exists (r : option (list segment)) (x' : X),
    fetch_transcript_segments env video_id lang disable_translate x
    = (Returned r, x').
Proof. intros. apply fetch_transcript_segments_returns. Qed.

(** X16. Every segment of a list that [fetch_transcript_segments] returns
    has exactly the three keys [text], [start] and [duration], whichever
    tier produced the list and whatever else the fetched items carried. *)
Theorem selector_returns_canonical_segments :
  forall (X : Type) (env : Env X) (video_id lang : string)
         (disable_translate : bool) (x x' : X) (segs : list segment) (s : segment),
  fetch_transcript_segments env video_id lang disable_translate x
  = (Returned (Some segs), x') ->
  s ∈ segs ->
  dom s = ({["text"; "start"; "duration"]} : gset string).
Proof.
  intros X env video_id lang dt x x' segs s H Hs.
  apply (selector_returns_only env (Forall canonical)) in H.
  - rewrite Forall_forall in H. by apply H.
  - apply fetch_and_return_canonical.
  - intros langs. apply direct_canonical.
Qed.

Lemma selector_returns_canonical_segments_witness :
  fetch_transcript_segments (sim_env annotated_english) "V1" "en" false (at_time 0)
  = (Returned (Some [seg "manual" 0 1]),
     {| sim_clock := 0; sim_log := ["fetch English"; "list_transcripts"] |})
  /\ dom (seg "manual" 0 1) = ({["text"; "start"; "duration"]} : gset string).
Proof.
  assert (Hrun : fetch_transcript_segments (sim_env annotated_english) "V1" "en" false
                   (at_time 0)
                 = (Returned (Some [seg "manual" 0 1]),
                    {| sim_clock := 0;
                       sim_log := ["fetch English"; "list_transcripts"] |})).
  { vm_compute. reflexivity. }
  split; [exact Hrun|].
  apply (selector_returns_canonical_segments Sim (sim_env annotated_english)
           "V1" "en" false _ _ _ (seg "manual" 0 1) Hrun).
  apply list_elem_of_here.
Defined.

(** X17. An empty list can only come from the direct [get_transcript]
    call: when that call never returns an empty payload, a list that
    [fetch_transcript_segments] returns is never empty. *)
Theorem selector_empty_only_from_direct :
  forall (X : Type) (env : Env X) (video_id lang : string)
         (disable_translate : bool) (x x' : X) (segs : list segment),
  (forall langs w w', get_transcript env video_id langs w <> (Returned [], w')) ->
  fetch_transcript_segments env video_id lang disable_translate x
  = (Returned (Some segs), x') ->
  segs <> [].
Proof.
  intros X env video_id lang dt x x' segs Hdirect H.
  apply (selector_returns_only env (fun l => l <> [])) in H; [done | |].
  - apply fetch_and_return_nonempty.
  - intros langs w w' b. unfold bind, pure_outcome.
    destruct (get_transcript env video_id langs w) as [[data|e] w1] eqn:Hg;
      [|discriminate].
    destruct (project data) as [s|] eqn:Hp; [|discriminate].
    unfold ret. intros [= <- <-]. apply project_length in Hp.
    destruct data; [by apply Hdirect in Hg | by destruct s].
Qed.

Lemma selector_empty_only_from_direct_witness :
  fetch_transcript_segments (sim_env two_english) "V1" "en" false (at_time 0)
  = (Returned (Some [seg "manual" 0 1]),
     {| sim_clock := 0; sim_log := ["fetch English"; "list_transcripts"] |})
  /\ [seg "manual" 0 1] <> [].
Proof.
  assert (Hrun : fetch_transcript_segments (sim_env two_english) "V1" "en" false
                   (at_time 0)
                 = (Returned (Some [seg "manual" 0 1]),
                    {| sim_clock := 0;
                       sim_log := ["fetch English"; "list_transcripts"] |})).
  { vm_compute. reflexivity. }
  split; [exact Hrun|].
  apply (selector_empty_only_from_direct Sim (sim_env two_english) "V1" "en" false
           _ _ _ ltac:(intros langs w w'; discriminate) Hrun).
Defined.



Section TierFacts.
Context {X : Type} (env : Env X).



Lemma manual_tier_none list_obj langs x :
  (forall c, c ∈ langs ->
     exists e, find_manually_created_transcript list_obj [c] = Raised e) ->
  manual_tier env list_obj langs x = (Returned None, x).
Proof.
  unfold manual_tier. induction langs as [|c langs IH]; intros H; [done|].
  cbn [for_return]. unfold bind at 1. unfold try_except at 1. unfold bind at 1.
  unfold pure_outcome at 1.
  destruct (H c) as [e ->]; [apply list_elem_of_here|].
  unfold ret at 1. apply IH. intros c' Hc'. apply H. by apply list_elem_of_further.
Qed.

End TierFacts.



(** X20. When the manual tier and the translate tier have returned nothing,
    a generated track for the requested code whose retried fetch returns
    well-formed data is what the selector returns. *)
Theorem generated_track_is_third_choice :
  forall (X : Type) (env : Env X) (video_id lang : string)
         (disable_translate : bool) (x x1 x2 x3 x4 : X)
         (tracks : list Transcript) (g : Transcript) (data segs : list segment),
  supports_listing env x = true ->
  list_transcripts env video_id x = (Returned tracks, x1) ->
  manual_tier env tracks [lang; "en"; "en-US"; "en-GB"] x1 = (Returned None, x2) ->
  translate_tier env tracks lang disable_translate x2 = (Returned None, x3) ->
  find_generated_transcript tracks [lang] = Returned g ->
  retry env (fetch env g) x3 = (Returned (Some data), x4) ->
  project data = Returned segs ->
  fetch_transcript_segments env video_id lang disable_translate x
  = (Returned (Some segs), x4).
Proof.
  intros X env video_id lang dt x x1 x2 x3 x4 tracks g data segs
    Hs Hl Hman Htr Hg Hr Hp.
  unfold fetch_transcript_segments. rewrite Hs. cbn [negb].
  unfold try_except at 1. unfold bind at 1. rewrite Hl.
  unfold or_next at 1. unfold bind at 1. rewrite Hman.
  unfold or_next at 1. unfold bind at 1. rewrite Htr.
  unfold or_next at 1. unfold bind at 1.
  unfold generated_tier. cbn [for_return]. unfold bind at 1.
  unfold try_except at 1. unfold bind at 1. unfold pure_outcome. rewrite Hg.
  by rewrite (fetch_and_return_ok env g x3 x4 data segs Hr Hp).
Qed.

Lemma generated_track_is_third_choice_witness :
  fetch_transcript_segments (sim_env generated_only) "V1" "de" true (at_time 0)
  = (Returned (Some [seg "hallo" 0 1]),
     {| sim_clock := 0;
        sim_log := ["fetch Deutsch (automatisch)"; "list_transcripts"] |}).
Proof.
  apply (generated_track_is_third_choice Sim (sim_env generated_only) "V1" "de" true
           (at_time 0) (logged "list_transcripts" (at_time 0))
           (logged "list_transcripts" (at_time 0))
           (logged "list_transcripts" (at_time 0)) _
           [generated_de; generated_en] generated_de
           [seg "hallo" 0 1] [seg "hallo" 0 1]).
  - reflexivity.
  - reflexivity.
  - reflexivity.
  - reflexivity.
  - reflexivity.
  - reflexivity.
  - vm_compute. reflexivity.
Defined.

(** ** The route: what one request does to the two caches *)

Section RouteEffects.
Context {X : Type} (env : Env X).
Variable selector : string -> string -> bool -> M X (option (list segment)).

Lemma cache_get_effect v l d st r st1 :
  cache_get env v l d st = (r, st1) ->
  _FAIL_CACHE st1 = _FAIL_CACHE st
  /\ ((_CACHE st1 = _CACHE st
       /\ forall data, r = Some data -> exists ts, _CACHE st !! (v, l, d) = Some (ts, data))
      \/ (_CACHE st1 = delete (v, l, d) (_CACHE st) /\ r = None)).
Proof.
  unfold cache_get. destruct (_CACHE st !! (v, l, d)) as [[ts data]|] eqn:Hk.
  - destruct (time_time env (ext st)) as [now x1].
    destruct (Qgtb _ _); intros [= <- <-]; cbn; split; try done.
    + by right.
    + left. split; [done|]. intros data' [= <-]. by exists ts.
  - intros [= <- <-]. split; [done|]. left. split; [done | discriminate].
Qed.

Lemma fail_cache_get_effect v l d st r st1 :
  fail_cache_get env v l d st = (r, st1) ->
  _CACHE st1 = _CACHE st
  /\ (_FAIL_CACHE st1 = _FAIL_CACHE st
      \/ _FAIL_CACHE st1 = delete (v, l, d) (_FAIL_CACHE st)).
Proof.
  unfold fail_cache_get. destruct (_FAIL_CACHE st !! (v, l, d)) as [[ts c]|].
  - destruct (time_time env (ext st)) as [now x1]. destruct (Qgtb _ _).
    + intros [= <- <-]. cbn. split; [done | by right].
    + destruct (time_time env x1). intros [= <- <-]. cbn. split; [done | by left].
  - intros [= <- <-]. split; [done | by left].
Qed.

Lemma lift_caches {A} (m : M X A) st r st1 :
  lift m st = (r, st1) ->
  _CACHE st1 = _CACHE st /\ _FAIL_CACHE st1 = _FAIL_CACHE st.
Proof. unfold lift. destruct (m (ext st)). by intros [= <- <-]. Qed.

Lemma cache_set_effect v l d data st :
  _FAIL_CACHE (cache_set env v l d data st) = _FAIL_CACHE st
  /\ exists t, _CACHE (cache_set env v l d data st) = <[(v, l, d) := (t, data)]> (_CACHE st).
Proof.
  unfold cache_set. destruct (time_time env (ext st)) as [now x1]. cbn.
  split; [done | by exists now].
Qed.

Lemma fail_cache_set_effect v l d (c : Z) st :
  c <> 0%Z ->
  _CACHE (fail_cache_set env v l d (Some c) st) = _CACHE st
  /\ exists t, _FAIL_CACHE (fail_cache_set env v l d (Some c) st)
               = <[(v, l, d) := (t, c)]> (_FAIL_CACHE st).
Proof.
  intros Hc. unfold fail_cache_set. destruct (time_time env (ext st)) as [now x1]. cbn.
  split; [done|]. exists now. by destruct c.
Qed.

Lemma stt_fallback_block_effect req gem st r st1 :
  stt_fallback_block env req gem st = (r, st1) ->
  _FAIL_CACHE st1 = _FAIL_CACHE st
  /\ stored_or_same (videoId req, lang req, disableTranslate req) id r st st1.
Proof.
  unfold stt_fallback_block, stored_or_same.
  destruct (sttFallback req && stt_enabled env (ext st)).
  - unfold bind. destruct (lift _ st) as [[segs | e] st2] eqn:Hl;
      apply lift_caches in Hl as [HC HF].
    + destruct segs as [[|s l]|].
      * intros [= <- <-]. split; [done|]. left. split; [done | by intros b data [= <-]].
      * unfold effect, ret. intros [= <- <-].
        destruct (cache_set_effect (videoId req) (lang req) (disableTranslate req)
                    (s :: l) st2) as [HF' [t HC']].
        split; [congruence|]. right. exists t, (Some (s :: l)), (s :: l).
        rewrite HC', HC. done.
      * intros [= <- <-]. split; [done|]. left. split; [done | by intros b data [= <-]].
    + intros [= <- <-]. split; [done|]. left. split; [done | discriminate].
  - intros [= <- <-]. split; [done|]. left. split; [done | by intros b data [= <-]].
Qed.

Lemma force_stt_branch_effect req gem st r st1 :
  force_stt_branch env req gem st = (r, st1) ->
  _FAIL_CACHE st1 = _FAIL_CACHE st
  /\ stored_or_same (videoId req, lang req, disableTranslate req) Some r st st1.
Proof.
  unfold force_stt_branch, stored_or_same.
  destruct (negb (stt_enabled env (ext st))).
  - intros [= <- <-]. split; [done|]. left. split; [done | discriminate].
  - unfold bind. destruct (lift _ st) as [[segs | e] st2] eqn:Hl;
      apply lift_caches in Hl as [HC HF].
    + destruct segs as [[|s l]|].
      * unfold raise. intros [= <- <-]. split; [done|]. left. split; [done | discriminate].
      * unfold effect, ret. intros [= <- <-].
        destruct (cache_set_effect (videoId req) (lang req) (disableTranslate req)
                    (s :: l) st2) as [HF' [t HC']].
        split; [congruence|]. right. exists t, (s :: l), (s :: l).
        rewrite HC', HC. done.
      * unfold raise. intros [= <- <-]. split; [done|]. left. split; [done | discriminate].
    + intros [= <- <-]. split; [done|]. left. split; [done | discriminate].
Qed.

(** The two failure paths, for the cooldown [c] they record. *)
Lemma failure_path_effect req gem (c : Z) msg hdr st r st1 :
  c <> 0%Z ->
  (do r <- stt_fallback_block env req gem;
   match r with
   | Some segs => ret segs
   | None =>
       (do _ <- effect (fail_cache_set env (videoId req) (lang req)
                          (disableTranslate req) (Some c));
        raise (http_exception 429 msg hdr))
   end)%m st = (r, st1) ->
  stored_or_same (videoId req, lang req, disableTranslate req) Some r st st1
  /\ (_FAIL_CACHE st1 = _FAIL_CACHE st
      \/ exists t e, r = Raised e
           /\ _FAIL_CACHE st1
              = <[(videoId req, lang req, disableTranslate req) := (t, c)]> (_FAIL_CACHE st)).
Proof.
  intros Hc. unfold bind.
  destruct (stt_fallback_block env req gem st) as [[[segs|]|e] st2] eqn:Hb;
    apply stt_fallback_block_effect in Hb as [HF Hst].
  - unfold ret. intros [= <- <-]. split; [|by left].
    destruct Hst as [[HC Hno] | (t & b & data & [= <-] & Hout & HC)].
    + by specialize (Hno (Some segs) segs eq_refl).
    + simpl in Hout. injection Hout as <-. right. by exists t, segs, segs.
  - unfold effect, raise. intros [= <- <-].
    destruct (fail_cache_set_effect (videoId req) (lang req) (disableTranslate req)
                c st2 Hc) as [HC' [t HF']].
    destruct Hst as [[HC Hno] | (t' & b & data & [= <-] & Hout & HC)];
      [|discriminate Hout].
    split.
    + left. split; [congruence | discriminate].
    + right. exists t, (http_exception 429 msg hdr). by rewrite HF', HF.
  - intros [= <- <-].
    destruct Hst as [[HC Hno] | (t' & b & data & [=] & _)].
    split; [left; split; [done | discriminate] | by left].
Qed.

Lemma after_caches_effect req gem st r st1 :
  after_caches env selector req gem st = (r, st1) ->
  let k := (videoId req, lang req, disableTranslate req) in
  stored_or_same k Some r st st1
  /\ (_FAIL_CACHE st1 = _FAIL_CACHE st
      \/ exists t c e,
           forceSTT req = false /\ r = Raised e
           /\ (c = 300%Z
               \/ (c = 120%Z
                   /\ exists x e' x', selector (videoId req) (lang req)
                                        (disableTranslate req) x = (Raised e', x')))
           /\ _FAIL_CACHE st1 = <[k := (t, c)]> (_FAIL_CACHE st)).
Proof.
  unfold after_caches. destruct (forceSTT req) eqn:Hforce.
  - intros H. apply force_stt_branch_effect in H as [HF Hst]. split; [done | by left].
  - destruct (lift _ st) as [[data | e] st2] eqn:Hl.
    + pose proof (lift_caches _ _ _ _ Hl) as [HC HF]. cbv zeta.
      assert (Hnd : no_data_path env req gem st2 = (r, st1) ->
        stored_or_same (videoId req, lang req, disableTranslate req) Some r st st1
        /\ (_FAIL_CACHE st1 = _FAIL_CACHE st
            \/ exists t c e,
                 false = false /\ r = Raised e
                 /\ (c = 300%Z
                     \/ (c = 120%Z
                         /\ exists x e' x', selector (videoId req) (lang req)
                                              (disableTranslate req) x = (Raised e', x')))
                 /\ _FAIL_CACHE st1
                    = <[(videoId req, lang req, disableTranslate req) := (t, c)]>
                        (_FAIL_CACHE st))).
      { intros H. apply failure_path_effect in H as [Hst Hf]; [|done].
        unfold stored_or_same in *. rewrite HC in Hst. rewrite HF in Hf. split; [done|].
        destruct Hf as [Hf | (t & e & -> & Hf)]; [by left|].
        right. exists t, 300%Z, e. repeat split; [by left | done]. }
      destruct data as [[|s l]|]; [exact Hnd | | exact Hnd].
      unfold bind, effect, ret. intros [= <- <-].
      destruct (cache_set_effect (videoId req) (lang req) (disableTranslate req)
                  (s :: l) st2) as [HF' [t HC']].
      split; [|left; congruence].
      right. exists t, (s :: l), (s :: l). rewrite HC', HC. done.
    + pose proof (lift_caches _ _ _ _ Hl) as [HC HF]. cbv zeta.
      intros H. apply failure_path_effect in H as [Hst Hf]; [|done].
      unfold stored_or_same in *. rewrite HC in Hst. rewrite HF in Hf. split; [done|].
      destruct Hf as [Hf | (t & e' & -> & Hf)]; [by left|].
      right. exists t, 120%Z, e'. repeat split; [|done].
      right. split; [done|]. unfold lift in Hl.
      destruct (selector _ _ _ (ext st)) as [r' x'] eqn:Hsel.
      injection Hl as -> _. by exists (ext st), e, x'.
Qed.

(** What a request does to the two dictionaries. *)
Lemma transcript_with_effects req st r st1 :
  transcript_with env selector req st = (r, st1) ->
  let k := (videoId req, lang req, disableTranslate req) in
  (* the success cache *)
  ((_CACHE st1 = _CACHE st \/ _CACHE st1 = delete k (_CACHE st))
   \/ exists t data, r = Returned data /\ _CACHE st1 = <[k := (t, data)]> (_CACHE st))
  /\ (forall data, r = Returned data -> exists ts, _CACHE st1 !! k = Some (ts, data))
  (* the failure cache *)
  /\ ((_FAIL_CACHE st1 = _FAIL_CACHE st \/ _FAIL_CACHE st1 = delete k (_FAIL_CACHE st))
      \/ exists t c e,
           forceSTT req = false /\ r = Raised e
           /\ (c = 300%Z
               \/ (c = 120%Z
                   /\ exists x e' x', selector (videoId req) (lang req)
                                        (disableTranslate req) x = (Raised e', x')))
           /\ _FAIL_CACHE st1 = <[k := (t, c)]> (_FAIL_CACHE st)).
Proof.
  intros H k. revert H. unfold transcript_with, bind, total.
  destruct (cache_get env _ _ _ st) as [data st2] eqn:Hc.
  apply cache_get_effect in Hc as [HF2 HC2]. fold k in HC2.
  assert (Hmiss :
    match fail_cache_get env (videoId req) (lang req) (disableTranslate req) st2 with
    | (rem, st3) =>
        (if truthy_int rem
         then raise (http_exception 429
                       "Upstream rate limited recently. Please retry later."
                       [("Retry-After", pretty (default 0%Z rem))])
         else after_caches env selector req (gem_override_of req)) st3
    end = (r, st1) ->
    ((_CACHE st1 = _CACHE st2)
     \/ exists t data, r = Returned data /\ _CACHE st1 = <[k := (t, data)]> (_CACHE st2))
    /\ (forall data, r = Returned data -> exists ts, _CACHE st1 !! k = Some (ts, data))
    /\ ((_FAIL_CACHE st1 = _FAIL_CACHE st2 \/ _FAIL_CACHE st1 = delete k (_FAIL_CACHE st2))
        \/ exists t c e,
             forceSTT req = false /\ r = Raised e
             /\ (c = 300%Z
                 \/ (c = 120%Z
                     /\ exists x e' x', selector (videoId req) (lang req)
                                          (disableTranslate req) x = (Raised e', x')))
             /\ _FAIL_CACHE st1 = <[k := (t, c)]> (_FAIL_CACHE st2))).
  {     destruct (fail_cache_get env _ _ _ st2) as [rem st3] eqn:Hf.
    apply fail_cache_get_effect in Hf as [HC3 HF3]. fold k in HF3.
    destruct (truthy_int rem).
    - unfold raise. intros [= <- <-]. rewrite HC3.
      split; [by left|]. split; [discriminate|]. by left.
    - intros H. apply after_caches_effect in H as [Hst Hf]. fold k in Hst, Hf.
      unfold stored_or_same in Hst. rewrite HC3 in Hst.
      split; [|split].
      + destruct Hst as [[HC _] | (t & b & data' & -> & [= <-] & HC)]; [by left|].
        right. by exists t, b.
      + intros data' ->.
        destruct Hst as [[_ Hno] | (t & b & data'' & [= <-] & [= <-] & HC)].
        * by specialize (Hno data' data' eq_refl).
        * exists t. rewrite HC. apply lookup_insert_eq.
      + destruct Hf as [Hf | (t & c & e & Hforce & -> & Hc & Hf)].
        * left. rewrite Hf. exact HF3.
        * right. exists t, c, e. repeat split; try done.
          rewrite Hf. destruct HF3 as [-> | ->]; [done|]. apply insert_delete_eq. }
  destruct data as [[|s l]|].
  - destruct (fail_cache_get env _ _ _ st2) as [rem st3].
    intros H. apply Hmiss in H as (H1 & H2 & H3). rewrite HF2 in H3.
    split; [|split; [done | done]].
    destruct HC2 as [[HC _] | [HC _]]; rewrite HC in H1.
    + destruct H1 as [H1 | H1]; [left; by left | by right].
    + destruct H1 as [H1 | (t & data' & -> & H1)]; [left; by right|].
      right. exists t, data'. split; [done|]. rewrite H1. apply insert_delete_eq.
  - unfold ret. intros [= <- <-].
    destruct HC2 as [[HC Hd] | [_ [=]]].
    split; [left; by left|]. split; [|left; by left].
    intros data' [= <-]. rewrite HC. by apply Hd.
  - destruct (fail_cache_get env _ _ _ st2) as [rem st3].
    intros H. apply Hmiss in H as (H1 & H2 & H3). rewrite HF2 in H3.
    split; [|split; [done | done]].
    destruct HC2 as [[HC _] | [HC _]]; rewrite HC in H1.
    + destruct H1 as [H1 | H1]; [left; by left | by right].
    + destruct H1 as [H1 | (t & data' & -> & H1)]; [left; by right|].
      right. exists t, data'. split; [done|]. rewrite H1. apply insert_delete_eq.
Qed.

End RouteEffects.

(** X21. A list that the route returns is, after the request, the entry of
    the success cache under the request key; and any request with that key
    made while that entry is at most 1800 seconds old is answered with the
    same list after a single clock reading, whatever its other parameters
    and whatever the selector would do. *)
Theorem success_is_served_again :
  forall (X : Type) (env : Env X)
         (selector : string -> string -> bool -> M X (option (list segment)))
         (req : Request) (st st1 : State X) (data : list segment),
  let k := (videoId req, lang req, disableTranslate req) in
  transcript_with env selector req st = (Returned data, st1) ->
  exists ts : Q,
    _CACHE st1 !! k = Some (ts, data)
    /\ forall (selector' : string -> string -> bool -> M X (option (list segment)))
              (req' : Request) (st2 : State X) (now : Q) (x' : X),
         (videoId req', lang req', disableTranslate req') = k ->
         _CACHE st2 !! k = Some (ts, data) ->
         time_time env (ext st2) = (now, x') -> (now - ts <= 1800)%Q ->
         transcript_with env selector' req' st2 = (Returned data, with_ext st2 x').
Proof.
  intros X env selector req st st1 data k H.
  pose proof (transcript_with_inv env selector req st _ _ H) as [_ Hne].
  specialize (Hne data eq_refl).
  apply transcript_with_effects in H as (_ & Hret & _).
  destruct (Hret data eq_refl) as [ts Hts]. exists ts. split; [exact Hts|].
  intros selector' req' st2 now x' Hkey Hk Hnow Hfresh.
  unfold transcript_with, bind, total, cache_get. rewrite Hkey. fold k.
  rewrite Hk, Hnow. apply Qgtb_false in Hfresh.
  change (inject_Z CACHE_TTL_SECONDS) with 1800%Q. rewrite Hfresh.
  by destruct data.
Qed.

Lemma success_is_served_again_witness :
  exists ts : Q,
    _CACHE (transcript (sim_env two_english) plain_request (empty_state (at_time 0))).2
      !! ("V1", "en", false) = Some (ts, [seg "manual" 0 1]).
Proof.
  destruct (success_is_served_again Sim (sim_env two_english)
              (fetch_transcript_segments (sim_env two_english)) plain_request
              (empty_state (at_time 0))
              (transcript (sim_env two_english) plain_request (empty_state (at_time 0))).2
              [seg "manual" 0 1])
    as (ts & Hts & _).
  - vm_compute. reflexivity.
  - exists ts. exact Hts.
Defined.

(** X22. Whatever happens during a request, the entries of both caches
    under every key other than the request's own are left as they were. *)
Theorem route_touches_only_its_key :
  forall (X : Type) (env : Env X)
         (selector : string -> string -> bool -> M X (option (list segment)))
         (req : Request) (st st1 : State X) (r : outcome (list segment)) (k' : key),
  transcript_with env selector req st = (r, st1) ->
  k' <> (videoId req, lang req, disableTranslate req) ->
  _CACHE st1 !! k' = _CACHE st !! k'
  /\ _FAIL_CACHE st1 !! k' = _FAIL_CACHE st !! k'.
Proof.
  intros X env selector req st st1 r k' H Hk.
  apply transcript_with_effects in H as (HC & _ & HF). split.
  - destruct HC as [[-> | ->] | (t & data & _ & ->)]; [done | |].
    + by rewrite lookup_delete_ne.
    + by rewrite lookup_insert_ne.
  - destruct HF as [[-> | ->] | (t & c & e & _ & _ & _ & ->)]; [done | |].
    + by rewrite lookup_delete_ne.
    + by rewrite lookup_insert_ne.
Qed.

Lemma route_touches_only_its_key_witness :
  let st := cache_set (sim_env two_english) "V2" "de" true [seg "hallo" 0 1]
              (empty_state (at_time 0)) in
  let st1 := (transcript (sim_env two_english) plain_request st).2 in
  _CACHE st1 !! ("V2", "de", true) = _CACHE st !! ("V2", "de", true)
  /\ _FAIL_CACHE st1 !! ("V2", "de", true) = _FAIL_CACHE st !! ("V2", "de", true).
Proof.
  intros st st1.
  apply (route_touches_only_its_key Sim (sim_env two_english)
           (fetch_transcript_segments (sim_env two_english)) plain_request st st1
           (transcript (sim_env two_english) plain_request st).1).
  - unfold st1, transcript. apply surjective_pairing.
  - discriminate.
Defined.

(** X23. A request with [forceSTT] never records a cooldown: after it the
    failure cache is the one before, less at most an expired entry under
    the request key; and when the request ends in an error the success
    cache has gained nothing either. *)
Theorem forced_stt_never_trips_the_breaker :
  forall (X : Type) (env : Env X)
         (selector : string -> string -> bool -> M X (option (list segment)))
         (req : Request) (st st1 : State X) (r : outcome (list segment)),
  let k := (videoId req, lang req, disableTranslate req) in
  forceSTT req = true ->
  transcript_with env selector req st = (r, st1) ->
  (_FAIL_CACHE st1 = _FAIL_CACHE st \/ _FAIL_CACHE st1 = delete k (_FAIL_CACHE st))
  /\ (forall e, r = Raised e ->
        _CACHE st1 = _CACHE st \/ _CACHE st1 = delete k (_CACHE st)).
Proof.
  intros X env selector req st st1 r k Hforce H.
  apply transcript_with_effects in H as (HC & _ & HF). fold k in HC, HF. split.
  - destruct HF as [HF | (t & c & e & Hf & _)]; [done | congruence].
  - intros e ->. destruct HC as [HC | (t & data & [=] & _)]. done.
Qed.

Lemma forced_stt_never_trips_the_breaker_witness :
  let out := transcript (sim_env nothing) forced_request (empty_state (at_time 0)) in
  out.1 = Raised (http_exception 502
                    "forceSTT failed: no segments produced by backend" [])
  /\ (_FAIL_CACHE out.2 = ∅ \/ _FAIL_CACHE out.2 = delete ("V1", "en", false) ∅).
Proof.
  intros out. split; [vm_compute; reflexivity|].
  apply (proj1 (forced_stt_never_trips_the_breaker Sim (sim_env nothing)
                  (fetch_transcript_segments (sim_env nothing)) forced_request
                  (empty_state (at_time 0)) out.2 out.1 eq_refl
                  (surjective_pairing _))).
Defined.

(** X24. The route as deployed never records the 120 second cooldown:
    [fetch_transcript_segments] never raises, so every failure entry with
    the cooldown 120 that is present after a request was there before. *)
Theorem deployed_route_never_records_120 :
  forall (X : Type) (env : Env X) (req : Request) (st st1 : State X)
         (r : outcome (list segment)) (k' : key) (ts : Q),
  transcript env req st = (r, st1) ->
  _FAIL_CACHE st1 !! k' = Some (ts, 120%Z) ->
  _FAIL_CACHE st !! k' = Some (ts, 120%Z).
Proof.
  intros X env req st st1 r k' ts H Hk. unfold transcript in H.
  apply transcript_with_effects in H as (_ & _ & HF).
  destruct HF as [[HF | HF] | (t & c & e & _ & _ & Hc & HF)].
  - by rewrite <- HF.
  - rewrite HF in Hk. apply lookup_delete_Some in Hk. tauto.
  - destruct Hc as [-> | [_ (x & e' & x' & Hraise)]].
    + rewrite HF in Hk.
      apply lookup_insert_Some in Hk as [[_ [=]] | [_ Hk]]. done.
    + destruct (fetch_transcript_segments_returns env (videoId req) (lang req)
                  (disableTranslate req) x) as (r0 & x0 & Hret).
      congruence.
Qed.

Lemma deployed_route_never_records_120_witness :
  let st := fail_cache_set (sim_env all_rate_limited) "V9" "en" false (Some 120%Z)
              (empty_state (at_time 0)) in
  _FAIL_CACHE st !! ("V9", "en", false) = Some (0%Q, 120%Z).
Proof.
  intros st.
  apply (deployed_route_never_records_120 Sim (sim_env all_rate_limited) plain_request
           st (transcript (sim_env all_rate_limited) plain_request st).2
           (transcript (sim_env all_rate_limited) plain_request st).1).
  - apply surjective_pairing.
  - vm_compute. reflexivity.
Defined.

(** X25. With [forceSTT] off, a request that has the STT fallback switched
    off by its caller never runs an audio or STT helper: its outcome and the
    state it leaves do not depend on what those helpers would do. *)
Theorem no_stt_without_fallback :
  forall (X : Type) (env : Env X)
         (selector : string -> string -> bool -> M X (option (list segment)))
         (req : Request) (st : State X)
         (download : string -> M X (option path))
         (whisper : path -> string -> M X (option (list segment)))
         (split : path -> Z -> M X (list path))
         (gemini : list path -> string -> option string -> M X (option (list segment)))
         (parent : path -> path) (rm : path -> X -> X),
  forceSTT req = false -> sttFallback req = false ->
  transcript_with (with_stt_helpers env download whisper split gemini parent rm)
    selector req st
  = transcript_with env selector req st.
Proof.
  intros X env selector req st download whisper split gemini parent rm Hforce Hfb.
  unfold transcript_with, bind, total.
  change (cache_get (with_stt_helpers env download whisper split gemini parent rm))
    with (cache_get env).
  destruct (cache_get env _ _ _ st) as [[[|s l]|] st2]; try reflexivity;
    change (fail_cache_get (with_stt_helpers env download whisper split gemini parent rm))
      with (fail_cache_get env);
    destruct (fail_cache_get env _ _ _ st2) as [rem st3];
    (destruct (truthy_int rem); [reflexivity|]);
    unfold after_caches; rewrite Hforce;
    (destruct (lift _ st3) as [[[[|s' l']|]|e] st4]; try reflexivity);
    unfold no_data_path, exception_path, bind, stt_fallback_block;
    rewrite Hfb; reflexivity.
Qed.

Lemma no_stt_without_fallback_witness :
  let quiet := {| videoId := "V1"; lang := "en"; disableTranslate := false;
                  sttFallback := false; sttBackend := Some "gemini";
                  forceSTT := false; gemini_api_key_header := "" |} in
  transcript_with
    (with_stt_helpers (sim_env nothing)
       (fun _ x => (Returned (Some "/tmp/a.webm"), logged "download" x))
       (fun _ _ x => (Returned (Some [seg "stt" 0 1]), logged "whisper" x))
       (fun p _ x => (Returned [p], logged "split" x))
       (fun _ _ _ x => (Returned (Some [seg "stt" 0 1]), logged "gemini" x))
       (fun p => p) (fun _ x => x))
    empty_selector quiet (empty_state (at_time 0))
  = transcript_with (sim_env nothing) empty_selector quiet (empty_state (at_time 0)).
Proof.
  intros quiet.
  apply (no_stt_without_fallback Sim (sim_env nothing) empty_selector quiet);
    reflexivity.
Defined.

(** ** Gemini backend *)

Section GeminiFacts.
Context {X : Type} (env : Env X) (sdk : GeminiSdk X).

Lemma transcribe_chunk_shape lang p offset x sg x1 :
  transcribe_chunk sdk lang p offset x = (Returned (Some sg), x1) ->
  exists t, sg = chunk_segment t offset.
Proof.
  unfold transcribe_chunk, bind, pure_outcome.
  destruct (upload_file sdk p _ x) as [[file|e] x2]; [|discriminate].
  destruct (generate_content sdk file _ x2) as [[resp|e] x3]; [|discriminate].
  destruct (response_text resp) as [text|e]; [|discriminate].
  destruct text as [|c text]; unfold ret; [discriminate|].
  intros [= <- <-]. by eexists.
Qed.

Lemma loop_inv_snoc nonneg acc offset t step :
  loop_inv nonneg acc offset ->
  (nonneg = true -> (0 <= step)%Q) ->
  loop_inv nonneg (acc ++ [chunk_segment t offset]) (offset + step).
Proof.
  intros (Hshape & Hhead & Hsorted) Hstep. split; [|split].
  - apply Forall_app. split; [done|]. constructor; [by eexists _, _ | constructor].
  - destruct acc as [|s acc]; simpl; [|done]. subst offset.
    unfold float_start, chunk_segment.
    by rewrite lookup_insert_ne, lookup_insert_eq.
  - intros Hnn. destruct (Hsorted Hnn) as [Hadj Hbound]. specialize (Hstep Hnn).
    split.
    + intros i s s' a b Hi Hsi Ha Hb.
      destruct (decide (S i < length acc)%nat) as [Hlt | Hge].
      * rewrite lookup_app_l in Hi by lia. rewrite lookup_app_l in Hsi by lia.
        exact (Hadj i s s' a b Hi Hsi Ha Hb).
      * apply lookup_lt_Some in Hsi as Hlen. rewrite length_app in Hlen. simpl in Hlen.
        rewrite lookup_app_l in Hi by lia.
        rewrite lookup_app_r in Hsi by lia.
        replace (S i - length acc)%nat with 0%nat in Hsi by lia.
        injection Hsi as <-. unfold float_start, chunk_segment in Hb.
        rewrite lookup_insert_ne, lookup_insert_eq in Hb by done.
        injection Hb as <-. eapply Hbound; [by eapply list_elem_of_lookup_2 | done].
    + intros s a Hin Ha. apply elem_of_app in Hin as [Hin | Hin].
      * specialize (Hbound s a Hin Ha). lra.
      * apply list_elem_of_singleton in Hin. subst s.
        unfold float_start, chunk_segment in Ha.
        rewrite lookup_insert_ne, lookup_insert_eq in Ha by done.
        injection Ha as <-. lra.
Qed.

Lemma gemini_loop_inv nonneg lang paths acc offset x out x' :
  (nonneg = true -> probe_nonnegative sdk) ->
  loop_inv nonneg acc offset ->
  gemini_loop sdk lang paths acc offset x = (out, x') ->
  (exists offset', loop_inv nonneg out offset')
  /\ (length acc <= length out <= length acc + length paths)%nat.
Proof.
  intros Hprobe. revert acc offset x.
  induction paths as [|p paths IH]; intros acc offset x Hinv; simpl.
  - intros [= <- <-]. split; [by exists offset | lia].
  - destruct (transcribe_chunk sdk lang p offset x) as [[[sg|]|e] x1] eqn:Hc.
    + apply transcribe_chunk_shape in Hc as [t ->].
      destruct (_probe_duration_seconds sdk p x1) as [[dur|e] x2] eqn:Hp.
      * intros H. apply IH in H as [Hout Hlen].
        -- split; [done|]. rewrite length_app in Hlen. simpl in Hlen. lia.
        -- apply loop_inv_snoc; [done|]. intros Hnn.
           destruct dur as [d|]; [|lra].
           destruct (Qeq_bool d 0); [lra|]. by eapply (Hprobe Hnn).
      * intros H. apply IH in H as [Hout Hlen].
        -- split; [done|]. rewrite length_app in Hlen. simpl in Hlen. lia.
        -- assert (Hz : loop_inv nonneg (acc ++ [chunk_segment t offset]) (offset + 0))
             by (apply loop_inv_snoc; [done | lra]).
           destruct Hz as (H1 & H2 & H3). split; [done | split].
           ++ destruct acc; simpl in *; [|done].
              destruct Hinv as (_ & -> & _). done.
           ++ intros Hnn. destruct (H3 Hnn) as [Ha Hb]. split; [done|].
              intros s a Hin Hs. specialize (Hb s a Hin Hs). lra.
    + intros H. apply IH in H as [Hout Hlen]; [|done]. split; [done | lia].
    + intros H. apply IH in H as [Hout Hlen]; [|done]. split; [done | lia].
Qed.


(** The function always returns; what it returns is the normalised list the
    loop built from world [x3], when that list is not empty. *)
Lemma gemini_impl_cases paths lang key x :
  exists r x',
    _gemini_transcribe_files_impl env sdk paths lang key x = (Returned r, x')
    /\ forall segs, r = Some segs ->
         exists raw x3 x4,
           gemini_loop sdk lang paths [] 0 x3 = (raw, x4)
           /\ raw <> [] /\ segs = _normalize_durations raw.
Proof.
  unfold _gemini_transcribe_files_impl.
  destruct (Str.strip _) as [|c k]; [by exists None, x|].
  destruct (import_genai sdk x) as [[u|e] x1]; [|by exists None, x1].
  unfold try_except, bind.
  destruct (genai_configure sdk _ x1) as [[u1|e] x2]; [|by exists None, x2].
  destruct (generative_model sdk _ x2) as [[u2|e] x3]; [|by exists None, x3].
  destruct (gemini_loop sdk lang paths [] 0 x3) as [raw x4] eqn:Hl.
  destruct raw as [|s raw]; [by exists None, x4|].
  eexists _, x4. split; [reflexivity|].
  intros segs [= <-]. by exists (s :: raw), x3, x4.
Qed.

End GeminiFacts.

(** X26. [_gemini_transcribe_files] never raises, whatever the package and
    the prober do.  A list it returns has at least one segment and at most
    one per chunk, and its first segment starts at 0. *)
Theorem gemini_result_shape :
  forall (X : Type) (env : Env X) (sdk : GeminiSdk X) (paths : list path)
         (lang : string) (api_key_override : option string) (x : X),
  exists (r : option (list segment)) (x' : X),
    _gemini_transcribe_files_impl env sdk paths lang api_key_override x
    = (Returned r, x')
    /\ forall segs, r = Some segs ->
         (1 <= length segs <= length paths)%nat
         /\ exists s0, segs !! 0%nat = Some s0 /\ float_start s0 0.
Proof.
  intros X env sdk paths lang key x.
  destruct (gemini_impl_cases env sdk paths lang key x) as (r & x' & Hrun & Hsegs).
  exists r, x'. split; [done|]. intros segs Hr.
  destruct (Hsegs segs Hr) as (raw & x3 & x4 & Hloop & Hne & ->).
  apply (gemini_loop_inv sdk false) in Hloop as [[offset' (Hshape & Hhead & _)] Hlen];
    [|discriminate | by repeat split].
  assert (Hl : length (_normalize_durations raw) = length raw).
  { destruct raw; [done | apply length_imap]. }
  rewrite Hl. split.
  - destruct raw; [done|]. simpl in *. lia.
  - destruct raw as [|s0 raw]; [done|].
    exists (normalize_at (s0 :: raw) (length (s0 :: raw)) 0 s0). split; [done|].
    unfold float_start. rewrite normalize_at_start.
    unfold dict_get. by rewrite Hhead.
Qed.


(** Of three chunks of 300, 300 and 120 seconds the second yields no text:
    the third chunk's segment starts at 300, not at 600. *)
Example gemini_three_chunks :
  _gemini_transcribe_files_impl (sim_env nothing) three_chunks three_paths "en"
    (Some "key") (at_time 0)
  = (Returned (Some [seg "one" 0 300; seg "three" 300 300]),
     {| sim_clock := 0;
        sim_log := ["upload part_002.mp3"; "upload part_001.mp3";
                    "upload part_000.mp3"] |}).
Proof. vm_compute. reflexivity. Qed.

Lemma gemini_result_shape_witness :
  exists (r : option (list segment)) (x' : Sim),
    _gemini_transcribe_files_impl (sim_env nothing) three_chunks three_paths "en"
      (Some "key") (at_time 0) = (Returned r, x')
    /\ forall segs, r = Some segs ->
         (1 <= length segs <= length three_paths)%nat
         /\ exists s0, segs !! 0%nat = Some s0 /\ float_start s0 0.
Proof.
  apply (gemini_result_shape Sim (sim_env nothing) three_chunks three_paths "en"
           (Some "key") (at_time 0)).
Defined.


(** ** Whisper backend *)

Lemma whisper_dict_shaped text start end_ : whisper_shaped (whisper_dict text start end_).
Proof.
  unfold whisper_shaped, whisper_dict, canonical. split.
  - rewrite !dom_insert_L, dom_singleton_L. set_solver.
  - exists start, (max0 (end_ - start)).
    rewrite lookup_insert_ne, !lookup_insert_eq by done.
    split; [done|]. split; [done | apply max0_nonneg].
Qed.

Lemma convert_new_shaped s d : convert_new s = Returned d -> whisper_shaped d.
Proof.
  unfold convert_new.
  destruct (float_or_raise _) as [start|]; [|discriminate].
  destruct (float_or_raise _) as [end_|]; [|discriminate].
  intros [= <-]. apply whisper_dict_shaped.
Qed.

Lemma convert_legacy_shaped s d : convert_legacy s = Returned d -> whisper_shaped d.
Proof.
  unfold convert_legacy. destruct s as [dict|]; [|discriminate].
  destruct (float_or_raise _) as [start|]; [|discriminate].
  destruct (float_or_raise _) as [end_|]; [|discriminate].
  intros [= <-]. apply whisper_dict_shaped.
Qed.

Lemma convert_all_shaped {S} (conv : S -> outcome segment) l out :
  (forall s d, conv s = Returned d -> whisper_shaped d) ->
  convert_all conv l = Returned out ->
  Forall whisper_shaped out /\ length out = length l.
Proof.
  intros Hconv. revert out. induction l as [|s l IH]; intros out; simpl.
  - intros [= <-]. split; [constructor | done].
  - destruct (conv s) as [d|] eqn:Hd; [|discriminate].
    destruct (convert_all conv l) as [rest|]; [|discriminate].
    intros [= <-]. destruct (IH rest eq_refl) as [H1 H2].
    split; [constructor; [by eapply Hconv | done] | simpl; by f_equal].
Qed.

Lemma segments_of_response_shaped {S} (conv : S -> outcome segment) resp segs :
  (forall s d, conv s = Returned d -> whisper_shaped d) ->
  segments_of_response conv resp = Returned (Some segs) ->
  segs <> [] /\ Forall whisper_shaped segs.
Proof.
  intros Hconv. unfold segments_of_response.
  destruct (wr_segments resp) as [[|s l]|].
  - destruct (Str.strip _); [discriminate|]. intros [= <-].
    split; [done|]. constructor; [|constructor].
    unfold whisper_shaped, canonical. split.
    + rewrite !dom_insert_L, dom_singleton_L. set_solver.
    + exists 0%Q, 0%Q. rewrite lookup_insert_ne, !lookup_insert_eq by done.
      split; [done|]. split; [done | apply Qle_refl].
  - destruct (convert_all conv (s :: l)) as [out|] eqn:Hc; [|discriminate].
    intros [= <-]. apply convert_all_shaped in Hc as [H1 H2]; [|done].
    split; [|done]. by destruct out.
  - destruct (Str.strip _); [discriminate|]. intros [= <-].
    split; [done|]. constructor; [|constructor].
    unfold whisper_shaped, canonical. split.
    + rewrite !dom_insert_L, dom_singleton_L. set_solver.
    + exists 0%Q, 0%Q. rewrite lookup_insert_ne, !lookup_insert_eq by done.
      split; [done|]. split; [done | apply Qle_refl].
Qed.

Lemma request_or_none_shaped {X S} (create : M X (WhisperResponse S))
    (conv : S -> outcome segment) x :
  (forall s d, conv s = Returned d -> whisper_shaped d) ->
  exists r x',
    request_or_none create conv x = (Returned r, x')
    /\ forall segs, r = Some segs -> segs <> [] /\ Forall whisper_shaped segs.
Proof.
  intros Hconv. unfold request_or_none.
  destruct (create x) as [[resp|e] x1]; [|by exists None, x1].
  destruct (segments_of_response conv resp) as [r|e] eqn:Hr; [|by exists None, x1].
  exists r, x1. split; [done|]. intros segs ->.
  by eapply segments_of_response_shaped.
Qed.

(** X28. [_whisper_transcribe_segments] never raises, whatever the package
    does, old or new.  A list it returns is never empty, and each of its
    segments has exactly the keys [text], [start] and [duration], with a
    float start and a float duration that is not negative. *)
Theorem whisper_result_shape :
  forall (X : Type) (env : Env X) (sdk : OpenAiSdk X) (audio_path : path)
         (lang : string) (x : X),
  exists (r : option (list segment)) (x' : X),
    _whisper_transcribe_segments_impl env sdk audio_path lang x = (Returned r, x')
    /\ forall segs, r = Some segs -> segs <> [] /\ Forall whisper_shaped segs.
Proof.
  intros X env sdk audio_path lang x. unfold _whisper_transcribe_segments_impl.
  destruct (Str.strip _) as [|c k]; [by exists None, x|].
  destruct (new_sdk_open sdk audio_path x) as [[u|e] x1].
  - apply request_or_none_shaped, convert_new_shaped.
  - destruct (legacy_open sdk _ audio_path x1) as [[u|e'] x2]; [|by exists None, x2].
    apply request_or_none_shaped, convert_legacy_shaped.
Qed.

(** The legacy SDK answering with one segment that ends before it starts,
    and with flat text only. *)
Example whisper_legacy_runs :
  _whisper_transcribe_segments_impl (sim_env with_openai_key)
    (legacy_only {| wr_segments :=
                      Some [LegacyDict (<["end" := PyFloat 2]>
                                          (<["start" := PyFloat 3]>
                                             {["text" := py_str "hi"]}))];
                    wr_text := None |})
    "/tmp/audio.webm" "" (at_time 0)
  = (Returned (Some [seg "hi" 3 0]),
     {| sim_clock := 0; sim_log := ["create"; "open"] |})
  /\ _whisper_transcribe_segments_impl (sim_env with_openai_key)
       (legacy_only {| wr_segments := None; wr_text := Some " all of it " |})
       "/tmp/audio.webm" "" (at_time 0)
     = (Returned (Some [seg " all of it " 0 0]),
        {| sim_clock := 0; sim_log := ["create"; "open"] |})
  /\ _whisper_transcribe_segments_impl (sim_env nothing)
       (legacy_only {| wr_segments := None; wr_text := Some "text" |})
       "/tmp/audio.webm" "" (at_time 0)
     = (Returned None, at_time 0).
Proof. vm_compute. repeat split; reflexivity. Qed.

Lemma whisper_result_shape_witness :
  exists (r : option (list segment)) (x' : Sim),
    _whisper_transcribe_segments_impl (sim_env with_openai_key)
      (legacy_only {| wr_segments := None; wr_text := Some " all of it " |})
      "/tmp/audio.webm" "" (at_time 0) = (Returned r, x')
    /\ forall segs, r = Some segs -> segs <> [] /\ Forall whisper_shaped segs.
Proof.
  apply (whisper_result_shape Sim (sim_env with_openai_key)).
Defined.

(** ** The admin surface *)




(** X30. Whatever the caller sends, [admin_env_set] leaves every variable
    outside the four mutable names as it was, [ADMIN_TOKEN] among them; a
    request that is refused changes nothing at all; and while [ADMIN_TOKEN]
    is unset or blank every request is refused with the status 403. *)
Theorem admin_set_is_confined :
  forall (upper : string -> string) (token : option string)
         (payload : EnvSetPayload) (env : environ),
  let out := admin_env_set upper token payload env in
  (forall name, allowed name = false -> out.2 !! name = env !! name)
  /\ out.2 !! "ADMIN_TOKEN" = env !! "ADMIN_TOKEN"
  /\ (forall e, out.1 = Raised e -> out.2 = env)
  /\ (Str.strip (default "" (env !! "ADMIN_TOKEN")) = "" ->
      out = (Raised (http_exception 403 "Admin token not configured on server" []), env)).
Proof.
  intros upper token payload env out. subst out.
  assert (Hframe : forall name, allowed name = false ->
            (admin_env_set upper token payload env).2 !! name = env !! name).
  { intros name Hname. unfold admin_env_set.
    destruct (_require_admin token env); [|done].
    destruct (allowed (upper (Str.strip (payload_key payload)))) eqn:Hk; [|done].
    cbn [negb snd].
    assert (upper (Str.strip (payload_key payload)) <> name) by congruence.
    destruct (payload_value payload) as [value|]; [destruct (Str.strip value)|];
      by rewrite ?lookup_delete_ne, ?lookup_insert_ne. }
  split; [exact Hframe|]. split; [by apply Hframe|]. split.
  - intros e. unfold admin_env_set.
    destruct (_require_admin token env); [|done].
    destruct (allowed _); [discriminate | done].
  - intros Hblank. unfold admin_env_set, _require_admin. by rewrite Hblank.
Qed.

Lemma admin_set_is_confined_witness :
  let env : environ := {[ "ADMIN_TOKEN" := "s3cret"; "PATH" := "/usr/bin" ]} in
  (admin_env_set ascii_upper (Some "s3cret")
     {| payload_key := "path"; payload_value := Some "/tmp" |} env).2 !! "PATH"
  = env !! "PATH"
  /\ admin_env_set ascii_upper (Some "anything")
       {| payload_key := "ENABLE_STT"; payload_value := Some "0" |} ∅
     = (Raised (http_exception 403 "Admin token not configured on server" []), ∅).
Proof.
  intros env. split.
  - apply (proj1 (admin_set_is_confined ascii_upper (Some "s3cret")
                    {| payload_key := "path"; payload_value := Some "/tmp" |} env)).
    reflexivity.
  - apply (proj2 (proj2 (proj2 (admin_set_is_confined ascii_upper (Some "anything")
                    {| payload_key := "ENABLE_STT"; payload_value := Some "0" |} ∅)))).
    reflexivity.
Defined.
